(** * Vessel-Detection: tile sampling, class balancing, normalisation

    A shallow embedding of the data-preparation cells of
    [src/final_sar.py] (lines 108-189 and 222-223): the positive tile
    extraction loops, the helper [img_contains_label], the rejection
    sampling loop that balances the classes, the min/max normaliser and
    the concatenation that follows the augmentation layer.

    Conventions of the embedding.
    - A raster scene (a 2-D numpy array) is a list of rows of rationals;
      a tile is a slice of it.  Pixels are exact rationals: rounding and
      NaN pixels inside a raster are outside the model.  The result of a
      numpy division is an [npfloat], which has the IEEE outcomes of a
      division by zero.
    - The label dataframe is the list of its rows, in order.
    - [train_scenes] (a dict iterated in insertion order) is an
      association list.
    - A Python exception is the outcome [Raise]; a [while True] loop that
      has not left after [fuel] iterations is the outcome [Running].
    - [np.random.randint] reads an oracle [draws : nat -> Z] at a position
      kept in the state and reduces the raw value it finds there into the
      half-open range; a draw is uniform in that every value of the range
      comes from equally many raw values.
    - [np.array(train_X)] keeps the list of tiles as it is.  What numpy
      makes of tiles of unequal shapes depends on its version and is not
      modelled; minimum, maximum and division act on every pixel of every
      tile. *)

From Stdlib Require Import String.
From Stdlib Require Import List Permutation ZArith QArith Bool Lia Lqa.
Import ListNotations.

Local Open Scope Z_scope.

(** ** Outcomes of running a cell *)

Inductive exn : Type :=
| ValueError
| IndexError
| NameError.

Inductive outcome (A : Type) : Type :=
| Ok (a : A)
| Raise (e : exn)
| Running.

Arguments Ok {A} a.
Arguments Raise {A} e.
Arguments Running {A}.

Definition bind {A B : Type} (c : outcome A) (k : A -> outcome B) : outcome B :=
  match c with
  | Ok a => k a
  | Raise e => Raise e
  | Running => Running
  end.

Declare Scope outcome_scope.
Delimit Scope outcome_scope with outcome.
Notation "x <- c ;; k" := (bind c (fun x => k))
  (at level 61, c at next level, right associativity) : outcome_scope.
Notation "' p <- c ;; k" := (bind c (fun x => match x with p => k end))
  (at level 61, p pattern, c at next level, right associativity) : outcome_scope.
Local Open Scope outcome_scope.

(** ** The numpy operations the cells use *)

Module Np.

(** Index adjustment of a basic slice [start:stop] on an axis of
    length [len]: a negative index counts from the end, then the index
    is clipped to [0, len]. *)
Definition adjust (i len : Z) : Z :=
  if i <? 0 then (if i + len <? 0 then 0 else i + len)
  else if len <=? i then len else i.

Definition slice {A : Type} (start stop : Z) (l : list A) : list A :=
  let len := Z.of_nat (length l) in
  let a := adjust start len in
  let b := adjust stop len in
  firstn (Z.to_nat (b - a)) (skipn (Z.to_nat a) l).

(** [a[r0:r1, c0:c1]] on a 2-D array. *)
Definition slice2 {A : Type} (r0 r1 c0 c1 : Z) (a : list (list A)) : list (list A) :=
  map (slice c0 c1) (slice r0 r1 a).

Definition qmin (a b : Q) : Q := if Qle_bool a b then a else b.
Definition qmax (a b : Q) : Q := if Qle_bool a b then b else a.

(** [ndarray.min()] and [ndarray.max()] over the flattened elements;
    a zero-size array raises [ValueError]. *)
Definition amin (xs : list Q) : outcome Q :=
  match xs with
  | [] => Raise ValueError
  | x :: rest => Ok (fold_left qmin rest x)
  end.

Definition amax (xs : list Q) : outcome Q :=
  match xs with
  | [] => Raise ValueError
  | x :: rest => Ok (fold_left qmax rest x)
  end.

Definition min2 (t : list (list Q)) : outcome Q := amin (concat t).
Definition min3 (X : list (list (list Q))) : outcome Q := amin (concat (concat X)).
Definition max3 (X : list (list (list Q))) : outcome Q := amax (concat (concat X)).

(** Floating-point results of a division. *)
Inductive npfloat : Type :=
| Fin (q : Q)
| Inf (negative : bool)
| NaN.

(** Element-wise [/] of numpy on floats: a zero divisor gives [nan]
    for [0/0] and a signed infinity otherwise, with a warning and no
    exception. *)
Definition div (a b : Q) : npfloat :=
  if Qeq_bool b 0 then
    (if Qeq_bool a 0 then NaN else Inf (negb (Qle_bool 0 a)))
  else Fin (a / b).

(** A 2-D array with [h] rows of [w] elements each. *)
Definition shape {A : Type} (h w : nat) (a : list (list A)) : Prop :=
  length a = h /\ Forall (fun row => length row = w) a.

End Np.

(** ** Data model *)

(** A row of the label dataframe (the columns the cells read). *)
Record label : Type := {
  scene_id : string;
  detect_scene_row : Z;
  detect_scene_column : Z;
  is_vessel : bool
}.

Definition scene : Type := list (list Q).
Definition tile : Type := list (list Q).
Definition dataframe : Type := list label.

(** The no-data value of the rasters, [-32768.0]. *)
Definition no_data : Q := (-32768) # 1.

(** [df[df['scene_id'] == id]] *)
Definition rows_of (df : dataframe) (id : string) : list label :=
  filter (fun l => String.eqb (scene_id l) id) df.

(** The globals the extraction loops write: the two accumulators and the
    loop variable [r], which stays bound to the last row iterated. *)
Record globals : Type := {
  X : list tile;
  y : list Z;
  r : option label
}.

Definition init : globals := {| X := []; y := []; r := None |}.

(** ** Positive tile extraction (lines 113-123 and 168-178) *)

(** The window [scene[row-128:row+128, col-128:col+128]]. *)
Definition window (s : scene) (row col : Z) : tile :=
  Np.slice2 (row - 128) (row + 128) (col - 128) (col + 128) s.

(** Body of the inner [for index, r in ... .iterrows()] loop. *)
Definition extract_label (s : scene) (lab : label) (g : globals) : outcome globals :=
  let row := detect_scene_row lab in
  let col := detect_scene_column lab in
  let label := if is_vessel lab then 1 else 0 in
  let subset := window s row col in
  m <- Np.min2 subset ;;
  if negb (Qeq_bool m no_data)
  then Ok {| X := X g ++ [subset]; y := y g ++ [label]; r := Some lab |}
  else Ok {| X := X g; y := y g; r := Some lab |}.

Fixpoint extract_rows (s : scene) (rows : list label) (g : globals) : outcome globals :=
  match rows with
  | [] => Ok g
  | lab :: rest => g' <- extract_label s lab g ;; extract_rows s rest g'
  end.

(** [for id, scene in scenes.items(): for index, r in df[...].iterrows(): ...] *)
Fixpoint extract (scenes : list (string * scene)) (df : dataframe) (g : globals)
  : outcome globals :=
  match scenes with
  | [] => Ok g
  | (id, s) :: rest =>
      g' <- extract_rows s (rows_of df id) g ;; extract rest df g'
  end.

(** ** Negative sampling (lines 125-155) *)

(** The test of line 130 on one label row against the candidate [(x, y)]. *)
Definition inside (lab : label) (x y0 : Z) : bool :=
  (x - 128 <? detect_scene_row lab) && (detect_scene_row lab <? x + 128)
  && (y0 - 128 <? detect_scene_column lab) && (detect_scene_column lab <? y0 + 128).

(** The loop of [img_contains_label].  Its loop variable is [row], and the
    body reads the global [r] (lines 128-129): an unbound [r] is a
    [NameError], raised when the body first runs. *)
Fixpoint img_contains_label_rows (rows : list label) (gr : option label) (x y0 : Z)
  : outcome bool :=
  match rows with
  | [] => Ok false
  | row :: rest =>
      match gr with
      | None => Raise NameError
      | Some r0 =>
          if inside r0 x y0 then Ok true
          else img_contains_label_rows rest gr x y0
      end
  end.

Definition img_contains_label (df : dataframe) (gr : option label) (x y0 : Z) (id : string)
  : outcome bool :=
  img_contains_label_rows (rows_of df id) gr x y0.

(** State of the balancing cell: the globals, the position in the random
    oracle, and a ghost record of the centers of the windows appended (the
    tiles themselves do not keep their position). *)
Record sampler : Type := {
  glob : globals;
  pos : nat;
  centers : list (string * Z * Z)
}.

(** [num_img_to_add = sum(train_y) - (len(train_y) - sum(train_y))] *)
Definition num_img_to_add (train_y : list Z) : Z :=
  let s := fold_left Z.add train_y 0 in
  s - (Z.of_nat (length train_y) - s).

(** [len(scene[0])] *)
Definition len0 (s : scene) : outcome Z :=
  match s with
  | [] => Raise IndexError
  | row :: _ => Ok (Z.of_nat (length row))
  end.

Section Sampler.

Variable draws : nat -> Z.

(** [np.random.randint(low, high)]: a value of [low, high), or
    [ValueError] when the range is empty. *)
Definition randint (low high : Z) (p : nat) : outcome (Z * nat) :=
  if low <? high then Ok (low + (draws p) mod (high - low), S p)
  else Raise ValueError.

(** Lines 146-147: one candidate center. *)
Definition draw_center (max_x max_y : Z) (p : nat) : outcome (Z * Z * nat) :=
  '(x, p1) <- randint 128 (max_x - 128) p ;;
  '(y0, p2) <- randint 128 (max_y - 128) p1 ;;
  Ok (x, y0, p2).

(** The [while True] loop of lines 145-155; it returns the accepted
    center, its tile and the oracle position. *)
Fixpoint sample_window (fuel : nat) (df : dataframe) (gr : option label)
    (id : string) (s : scene) (max_x max_y : Z) (p : nat)
  : outcome (Z * Z * tile * nat) :=
  match fuel with
  | O => Running
  | S fuel' =>
      '(x, y0, p') <- draw_center max_x max_y p ;;
      let subset := window s x y0 in
      c <- img_contains_label df gr x y0 id ;;
      if c then sample_window fuel' df gr id s max_x max_y p'
      else
        m <- Np.min2 subset ;;
        if Qeq_bool m no_data
        then sample_window fuel' df gr id s max_x max_y p'
        else Ok (x, y0, subset, p')
  end.

(** [for i in range(k)]: each round appends one window with label 0. *)
Fixpoint add_negatives (k : nat) (fuel : nat) (df : dataframe)
    (id : string) (s : scene) (st : sampler) : outcome sampler :=
  match k with
  | O => Ok st
  | S k' =>
      let max_x := Z.of_nat (length s) in
      max_y <- len0 s ;;
      '(x, y0, subset, p') <-
         sample_window fuel df (r (glob st)) id s max_x max_y (pos st) ;;
      add_negatives k' fuel df id s
        {| glob := {| X := X (glob st) ++ [subset];
                      y := y (glob st) ++ [0];
                      r := r (glob st) |};
           pos := p';
           centers := centers st ++ [(id, x, y0)] |}
  end.

(** [for id, scene in train_scenes.items()], with
    [quota = num_img_to_add // len(train_scenes)]; a negative quota is an
    empty [range]. *)
Fixpoint balance_scenes (scenes : list (string * scene)) (quota : Z)
    (fuel : nat) (df : dataframe) (st : sampler) : outcome sampler :=
  match scenes with
  | [] => Ok st
  | (id, s) :: rest =>
      st' <- add_negatives (Z.to_nat quota) fuel df id s st ;;
      balance_scenes rest quota fuel df st'
  end.

Definition quota_of (train_scenes : list (string * scene)) (train_y : list Z) : Z :=
  num_img_to_add train_y / Z.of_nat (length train_scenes).

Definition balance (fuel : nat) (train_scenes : list (string * scene))
    (df : dataframe) (g : globals) : outcome sampler :=
  balance_scenes train_scenes (quota_of train_scenes (y g)) fuel df
    {| glob := g; pos := O; centers := [] |}.

(** Lines 108-155: the training set before normalisation. *)
Definition build_training (fuel : nat) (train_scenes : list (string * scene))
    (df : dataframe) : outcome sampler :=
  g <- extract train_scenes df init ;;
  balance fuel train_scenes df g.

(** Lines 164-178: the validation set, built after the training set
    into accumulators of its own. *)
Definition build_validation (val_scenes : list (string * scene))
    (val_df : dataframe) (gr : option label) : outcome globals :=
  extract val_scenes val_df {| X := []; y := []; r := gr |}.

Definition assemble (fuel : nat) (train_scenes : list (string * scene))
    (df : dataframe) (val_scenes : list (string * scene)) (val_df : dataframe)
  : outcome (globals * globals) :=
  st <- build_training fuel train_scenes df ;;
  v <- build_validation val_scenes val_df (r (glob st)) ;;
  Ok (glob st, v).

End Sampler.

(** ** Normalisation (lines 188-189) *)

Definition ntile : Type := list (list Np.npfloat).

(** [(X - X.min()) / (X.max() - X.min())] *)
Definition normalize (tiles : list tile) : outcome (list ntile) :=
  mn <- Np.min3 tiles ;;
  mx <- Np.max3 tiles ;;
  Ok (map (map (map (fun x => Np.div (x - mn) (mx - mn)))) tiles).

(** ** Augmentation (lines 222-223) *)

(** [train_X = concatenate((train_X, data_augmentation(train_X)))],
    [train_y = concatenate((train_y, train_y))].  The Keras layers are a
    parameter. *)
Definition augment (data_augmentation : list ntile -> list ntile)
    (d : list ntile * list Z) : list ntile * list Z :=
  (fst d ++ data_augmentation (fst d), snd d ++ snd d).

(** ** Concrete inputs *)

Definition zeros (h w : nat) : scene := repeat (repeat (0 # 1)%Q w) h.
Definition blank (h w : nat) : scene := repeat (repeat no_data w) h.

Definition mk (id : string) (row col : Z) (v : bool) : label :=
  {| scene_id := id; detect_scene_row := row; detect_scene_column := col; is_vessel := v |}.

Definition draws0 : nat -> Z := fun _ => 0.

(** ** Label files and the scene dictionary (lines 79-99) *)

(** A row of a label file as read: the column [is_vessel] holds True,
    False or NaN ([None]). *)
Record csv_row : Type := {
  csv_scene_id : string;
  csv_detect_scene_row : Z;
  csv_detect_scene_column : Z;
  csv_is_vessel : option bool
}.

(** [df[df['scene_id'].isin(scenes)]] (lines 80-81) *)
Definition isin (scenes : list string) (rows : list csv_row) : list csv_row :=
  filter (fun c => existsb (String.eqb (csv_scene_id c)) scenes) rows.

(** [is_vessel == b], element-wise: NaN compares unequal to both. *)
Definition flag_eq (v : option bool) (b : bool) : bool :=
  match v with
  | Some b' => Bool.eqb b' b
  | None => false
  end.

(** [df[np.logical_or(df['is_vessel'] == True, df['is_vessel'] == False)]]
    (lines 84-85) *)
Definition drop_nan (rows : list csv_row) : list csv_row :=
  filter (fun c => flag_eq (csv_is_vessel c) true || flag_eq (csv_is_vessel c) false) rows.

(** How the loops read a row: [1 if r.is_vessel else 0] takes the truth
    value of the cell, and NaN is truthy. *)
Definition as_label (c : csv_row) : label :=
  {| scene_id := csv_scene_id c;
     detect_scene_row := csv_detect_scene_row c;
     detect_scene_column := csv_detect_scene_column c;
     is_vessel := match csv_is_vessel c with Some b => b | None => true end |}.

(** Lines 80-85: the label dataframe the later cells use. *)
Definition clean_labels (scenes : list string) (rows : list csv_row) : dataframe :=
  map as_label (drop_nan (isin scenes rows)).

(** [Series.unique()]: the distinct values in order of first appearance. *)
Fixpoint unique (ids : list string) : list string :=
  match ids with
  | [] => []
  | id :: rest => id :: filter (fun j => negb (String.eqb j id)) (unique rest)
  end.

(** [d[k] = v] on a dict: an existing key keeps its place and takes the
    new value, a new key goes last. *)
Fixpoint dict_set (d : list (string * scene)) (k : string) (v : scene)
  : list (string * scene) :=
  match d with
  | [] => [(k, v)]
  | (k', v') :: rest =>
      if String.eqb k' k then (k', v) :: rest else (k', v') :: dict_set rest k v
  end.

(** [{id : scenes_list[i] for i, id in enumerate(ids)}] (lines 98-99),
    from position [i] with the entries [d] already made; the rasters read
    by gdal are the list [scenes_list]. *)
Fixpoint scenes_dict_from (ids : list string) (scenes_list : list scene) (i : nat)
    (d : list (string * scene)) : outcome (list (string * scene)) :=
  match ids with
  | [] => Ok d
  | id :: rest =>
      match nth_error scenes_list i with
      | None => Raise IndexError
      | Some s => scenes_dict_from rest scenes_list (S i) (dict_set d id s)
      end
  end.

(** Lines 91 and 98 together. *)
Definition scenes_dict (df : dataframe) (scenes_list : list scene)
  : outcome (list (string * scene)) :=
  scenes_dict_from (unique (map scene_id df)) scenes_list 0 [].

(** ** Indexing the assembled arrays (lines 193-200 and 291-295) *)

(** [a[i]] on the first axis: a negative index counts from the end, and an
    index outside the axis raises [IndexError]. *)
Definition getitem {A : Type} (a : list A) (i : Z) : outcome A :=
  let n := Z.of_nat (length a) in
  let j := if i <? 0 then i + n else i in
  if (j <? 0) || (n <=? j) then Raise IndexError
  else match nth_error a (Z.to_nat j) with
       | Some v => Ok v
       | None => Raise IndexError
       end.

Fixpoint for_each {A B : Type} (f : A -> outcome B) (l : list A) : outcome (list B) :=
  match l with
  | [] => Ok []
  | a :: rest => b <- f a ;; bs <- for_each f rest ;; Ok (b :: bs)
  end.

(** Lines 193-200: the 25 tiles [train_X[i*20]] shown with their labels
    [train_y[i*20]]. *)
Definition preview {A : Type} (train_X : list A) (train_y : list Z)
  : outcome (list (A * Z)) :=
  for_each (fun i : nat =>
              t <- getitem train_X (Z.of_nat i * 20) ;;
              l <- getitem train_y (Z.of_nat i * 20) ;;
              Ok (t, l))
           (seq 0 25).

(** Lines 291-295: a random validation tile with its label. *)
Definition pick {A : Type} (draws : nat -> Z) (val_X : list A) (val_y : list Z)
    (p : nat) : outcome (Z * A * Z * nat) :=
  '(index, p') <- randint draws 0 (Z.of_nat (length val_X)) p ;;
  t <- getitem val_X index ;;
  l <- getitem val_y index ;;
  Ok (index, t, l, p').

(** The row to which [r] is bound after iterating [rows]. *)
Definition last_row (rows : list label) (gr : option label) : option label :=
  match rev rows with
  | [] => gr
  | lab :: _ => Some lab
  end.

(** The rows the extraction loops iterate, in order. *)
Definition visited (scenes : list (string * scene)) (df : dataframe) : list label :=
  flat_map (fun sc => rows_of df (fst sc)) scenes.

(** A list of scenes that are all rectangular arrays. *)
Definition rectangular (scenes : list (string * scene)) : Prop :=
  Forall (fun sc => exists h w, Np.shape h w (snd sc)) scenes.

(** The test of lines 121 and 176 on a label row of scene [s]: its window
    has a minimum, and that minimum is not the no-data value. *)
Definition has_data (s : scene) (lab : label) : bool :=
  match Np.min2 (window s (detect_scene_row lab) (detect_scene_column lab)) with
  | Ok m => negb (Qeq_bool m no_data)
  | _ => false
  end.

(** The rows an extraction loop keeps, each with its scene, in the order
    of the iteration. *)
Definition kept (scenes : list (string * scene)) (df : dataframe)
  : list (scene * label) :=
  filter (fun p => has_data (fst p) (snd p))
         (flat_map (fun sc => map (pair (snd sc)) (rows_of df (fst sc))) scenes).

(** ** Counting the oracle values behind a candidate *)





(** The element of a stack of 2-D arrays at tile [i], row [j], column [k]. *)
Definition at3 {A : Type} (a : list (list (list A))) (i j k : nat) : option A :=
  match nth_error a i with
  | Some t =>
      match nth_error t j with
      | Some rw => nth_error rw k
      | None => None
      end
  | None => None
  end.

(** ** Predicates and observations used in the statements *)

(** A tile whose minimum exists and is not the no-data value. *)
Definition valid_tile (t : tile) : Prop :=
  exists m, Np.min2 t = Ok m /\ ~ (m == no_data)%Q.

Definition binary (v : Z) : Prop := v = 0 \/ v = 1.

(** [g'] is [g] with a list of (tile, label) pairs appended to the two
    accumulators, pair by pair. *)
Definition extends (g g' : globals) : Prop :=
  exists ps : list (tile * Z),
    X g' = X g ++ map fst ps /\ y g' = y g ++ map snd ps /\
    Forall (fun p => valid_tile (fst p) /\ binary (snd p)) ps.

(** A center the sampler may accept in scene [s]: inside the margins of
    both axes, with a tile free of no-data. *)
Definition center_ok (s : scene) (c : Z * Z) : Prop :=
  128 <= fst c < Z.of_nat (length s) - 128 /\
  (exists w, len0 s = Ok w /\ 128 <= snd c < w - 128) /\
  valid_tile (window s (fst c) (snd c)).

Definition scene_of (c : string * Z * Z) : string := fst (fst c).

Definition center_of (c : string * Z * Z) : Z * Z := (snd (fst c), snd c).

Definition count (v : Z) (l : list Z) : nat := count_occ Z.eq_dec l v.

Definition is_ok {A : Type} (o : outcome A) : bool :=
  match o with Ok _ => true | _ => false end.

(** The run [o] returns, and its result satisfies [P]. *)
Definition returns {A : Type} (o : outcome A) (P : A -> Prop) : Prop :=
  match o with Ok a => P a | _ => False end.

(** A small run: one 257 x 384 training raster of zeros with two vessel
    labels, and a validation raster with one label. *)
Definition demo_scenes : list (string * scene) := [("s"%string, zeros 257 384)].

Definition demo_df : dataframe := [mk "s" 128 128 true; mk "s" 128 256 true].

Definition demo_val_scenes : list (string * scene) := [("v"%string, zeros 257 257)].

Definition demo_val_df : dataframe := [mk "v" 128 128 false].

Definition ones (l : list Z) : Z := Z.of_nat (count 1 l).

Definition noughts (l : list Z) : Z := Z.of_nat (count 0 l).

(** A training set with two non-vessel labels and no vessel label. *)
Definition neg_scenes : list (string * scene) := [("s"%string, zeros 257 257)].

Definition neg_df : dataframe := [mk "s" 128 128 false; mk "s" 128 128 false].



Definition in_bounds (h w : nat) (row col : Z) : Prop :=
  0 <= row - 128 /\ row + 128 <= Z.of_nat h /\
  0 <= col - 128 /\ col + 128 <= Z.of_nat w.

Definition all_no_data (s : scene) : Prop :=
  Forall (Forall (fun q => (q == no_data)%Q)) s.

(** A blank scene next to a scene with two vessels. *)
Definition blank_scenes : list (string * scene) :=
  [("b"%string, blank 257 257); ("a"%string, zeros 258 258)].

Definition blank_df : dataframe :=
  [mk "b" 128 128 true; mk "a" 128 128 true; mk "a" 129 129 true].

(** A run that, whatever the draws, is still in its loop after any number
    of iterations: it neither returns nor raises. *)
Definition never_leaves {A : Type} (run : (nat -> Z) -> nat -> outcome A) : Prop :=
  forall draws fuel, run draws fuel = Running.

(** * Properties *)

(** ** Inversion of the outcome monad *)

Lemma bind_Ok {A B : Type} (c : outcome A) (k : A -> outcome B) (b : B) :
  bind c k = Ok b -> exists a, c = Ok a /\ k a = Ok b.
Proof.
  destruct c as [a| |]; simpl; intros H; try discriminate.
  exists a; split; [reflexivity | exact H].
Qed.

Ltac inv_bind H :=
  let a := fresh "a" in
  let E := fresh "E" in
  apply bind_Ok in H; destruct H as [a [E H]].

(** ** Minimum and maximum of an array *)

Lemma fold_qmin_In (xs : list Q) (x : Q) :
  In (fold_left Np.qmin xs x) (x :: xs).
Proof.
  revert x; induction xs as [|a xs IH]; intros x; simpl.
  - left; reflexivity.
  - specialize (IH (Np.qmin x a)). simpl in IH.
    destruct IH as [IH | IH].
    + unfold Np.qmin in IH at 1. destruct (Qle_bool x a); auto.
    + right; right; exact IH.
Qed.

Lemma fold_qmax_In (xs : list Q) (x : Q) :
  In (fold_left Np.qmax xs x) (x :: xs).
Proof.
  revert x; induction xs as [|a xs IH]; intros x; simpl.
  - left; reflexivity.
  - specialize (IH (Np.qmax x a)). simpl in IH.
    destruct IH as [IH | IH].
    + unfold Np.qmax in IH at 1. destruct (Qle_bool x a); auto.
    + right; right; exact IH.
Qed.

Lemma qmin_le_l (a b : Q) : (Np.qmin a b <= a)%Q.
Proof.
  unfold Np.qmin. destruct (Qle_bool a b) eqn:E.
  - apply Qle_refl.
  - destruct (Qlt_le_dec b a) as [H | H].
    + apply Qlt_le_weak; exact H.
    + apply Qle_bool_iff in H. congruence.
Qed.

Lemma qmin_le_r (a b : Q) : (Np.qmin a b <= b)%Q.
Proof.
  unfold Np.qmin. destruct (Qle_bool a b) eqn:E.
  - apply Qle_bool_iff; exact E.
  - apply Qle_refl.
Qed.

Lemma qmax_ge_l (a b : Q) : (a <= Np.qmax a b)%Q.
Proof.
  unfold Np.qmax. destruct (Qle_bool a b) eqn:E.
  - apply Qle_bool_iff; exact E.
  - apply Qle_refl.
Qed.

Lemma qmax_ge_r (a b : Q) : (b <= Np.qmax a b)%Q.
Proof.
  unfold Np.qmax. destruct (Qle_bool a b) eqn:E.
  - apply Qle_refl.
  - destruct (Qlt_le_dec b a) as [H | H].
    + apply Qlt_le_weak; exact H.
    + apply Qle_bool_iff in H. congruence.
Qed.

Lemma fold_qmin_le (xs : list Q) (x : Q) :
  forall z, In z (x :: xs) -> (fold_left Np.qmin xs x <= z)%Q.
Proof.
  revert x; induction xs as [|a xs IH]; intros x z Hz; simpl.
  - destruct Hz as [<- | []]. apply Qle_refl.
  - destruct Hz as [<- | [<- | Hz]].
    + eapply Qle_trans; [apply IH; left; reflexivity | apply qmin_le_l].
    + eapply Qle_trans; [apply IH; left; reflexivity | apply qmin_le_r].
    + apply IH; right; exact Hz.
Qed.

Lemma fold_qmax_ge (xs : list Q) (x : Q) :
  forall z, In z (x :: xs) -> (z <= fold_left Np.qmax xs x)%Q.
Proof.
  revert x; induction xs as [|a xs IH]; intros x z Hz; simpl.
  - destruct Hz as [<- | []]. apply Qle_refl.
  - destruct Hz as [<- | [<- | Hz]].
    + eapply Qle_trans; [apply qmax_ge_l | apply IH; left; reflexivity].
    + eapply Qle_trans; [apply qmax_ge_r | apply IH; left; reflexivity].
    + apply IH; right; exact Hz.
Qed.

Lemma amin_In (xs : list Q) (m : Q) : Np.amin xs = Ok m -> In m xs.
Proof.
  destruct xs as [|x xs]; simpl; intros H; inversion H; subst.
  apply fold_qmin_In.
Qed.

Lemma amax_In (xs : list Q) (m : Q) : Np.amax xs = Ok m -> In m xs.
Proof.
  destruct xs as [|x xs]; simpl; intros H; inversion H; subst.
  apply fold_qmax_In.
Qed.

Lemma amin_le (xs : list Q) (m : Q) :
  Np.amin xs = Ok m -> forall z, In z xs -> (m <= z)%Q.
Proof.
  destruct xs as [|x xs]; simpl; intros H; inversion H; subst.
  apply fold_qmin_le.
Qed.

Lemma amax_ge (xs : list Q) (m : Q) :
  Np.amax xs = Ok m -> forall z, In z xs -> (z <= m)%Q.
Proof.
  destruct xs as [|x xs]; simpl; intros H; inversion H; subst.
  apply fold_qmax_ge.
Qed.

Lemma amin_nonempty (xs : list Q) :
  xs <> [] -> exists m, Np.amin xs = Ok m.
Proof.
  destruct xs as [|x xs]; [congruence | intros _; eexists; reflexivity].
Qed.

(** ** What the extraction loops append *)

Lemma extends_refl (g g' : globals) :
  X g' = X g -> y g' = y g -> extends g g'.
Proof.
  intros HX Hy. exists []. simpl. rewrite !app_nil_r. auto.
Qed.

Lemma extends_trans (g1 g2 g3 : globals) :
  extends g1 g2 -> extends g2 g3 -> extends g1 g3.
Proof.
  intros [ps [HX [Hy HF]]] [qs [HX' [Hy' HF']]].
  exists (ps ++ qs). rewrite !map_app, !app_assoc, <- HX, <- Hy.
  repeat split; auto. apply Forall_app; auto.
Qed.

Lemma Qeq_bool_false (a b : Q) : Qeq_bool a b = false -> ~ (a == b)%Q.
Proof.
  intros H E. apply Qeq_bool_iff in E. congruence.
Qed.

Lemma extract_label_cases (s : scene) (lab : label) (g g' : globals) :
  extract_label s lab g = Ok g' ->
  r g' = Some lab /\
  ((X g' = X g /\ y g' = y g) \/
   (X g' = X g ++ [window s (detect_scene_row lab) (detect_scene_column lab)] /\
    y g' = y g ++ [if is_vessel lab then 1 else 0] /\
    valid_tile (window s (detect_scene_row lab) (detect_scene_column lab)))).
Proof.
  unfold extract_label. intros H. inv_bind H.
  destruct (Qeq_bool a no_data) eqn:Em; simpl in H; inversion H; subst; simpl.
  - split; [reflexivity | left; auto].
  - split; [reflexivity | right]. repeat split.
    exists a. split; [exact E | apply Qeq_bool_false; exact Em].
Qed.

Lemma extract_label_extends (s : scene) (lab : label) (g g' : globals) :
  extract_label s lab g = Ok g' -> extends g g'.
Proof.
  intros H. apply extract_label_cases in H. destruct H as [_ [[HX Hy] | [HX [Hy Hv]]]].
  - apply extends_refl; assumption.
  - exists [(window s (detect_scene_row lab) (detect_scene_column lab),
             if is_vessel lab then 1 else 0)].
    simpl. repeat split; auto. constructor; [| constructor].
    simpl. split; [exact Hv |]. unfold binary. destruct (is_vessel lab); auto.
Qed.

Lemma extract_rows_extends (s : scene) (rows : list label) :
  forall g g', extract_rows s rows g = Ok g' -> extends g g'.
Proof.
  induction rows as [|lab rows IH]; simpl; intros g g' H.
  - inversion H; subst. apply extends_refl; reflexivity.
  - inv_bind H. eapply extends_trans.
    + eapply extract_label_extends; exact E.
    + apply IH; exact H.
Qed.

Lemma extract_extends (scenes : list (string * scene)) (df : dataframe) :
  forall g g', extract scenes df g = Ok g' -> extends g g'.
Proof.
  induction scenes as [|[id s] scenes IH]; simpl; intros g g' H.
  - inversion H; subst. apply extends_refl; reflexivity.
  - inv_bind H. eapply extends_trans.
    + eapply extract_rows_extends; exact E.
    + apply IH; exact H.
Qed.

Lemma extends_valid (g g' : globals) :
  extends g g' -> Forall valid_tile (X g) -> Forall valid_tile (X g').
Proof.
  intros [ps [HX [_ HF]]] H. rewrite HX. apply Forall_app. split; [exact H |].
  apply Forall_map. eapply Forall_impl; [| exact HF]. intros p [Hp _]; exact Hp.
Qed.

Lemma extends_binary (g g' : globals) :
  extends g g' -> Forall binary (y g) -> Forall binary (y g').
Proof.
  intros [ps [_ [Hy HF]]] H. rewrite Hy. apply Forall_app. split; [exact H |].
  apply Forall_map. eapply Forall_impl; [| exact HF]. intros p [_ Hp]; exact Hp.
Qed.

Lemma extends_length (g g' : globals) :
  extends g g' -> length (X g) = length (y g) -> length (X g') = length (y g').
Proof.
  intros [ps [HX [Hy _]]] H. rewrite HX, Hy, !length_app, !length_map, H.
  reflexivity.
Qed.

(** ** What the rejection loop accepts *)

Section SamplerFacts.

Variable draws : nat -> Z.

Lemma randint_range (low high : Z) (p : nat) (v : Z) (p' : nat) :
  randint draws low high p = Ok (v, p') -> low <= v < high.
Proof.
  unfold randint. destruct (Z.ltb_spec low high) as [Hlt | Hge]; intros H.
  - inversion H; subst.
    pose proof (Z.mod_pos_bound (draws p) (high - low)). lia.
  - discriminate.
Qed.

Lemma draw_center_range (max_x max_y : Z) (p : nat) (x y0 : Z) (p' : nat) :
  draw_center draws max_x max_y p = Ok (x, y0, p') ->
  128 <= x < max_x - 128 /\ 128 <= y0 < max_y - 128.
Proof.
  unfold draw_center. intros H.
  inv_bind H. destruct a as [x1 p1]. inv_bind H. destruct a as [y1 p2].
  inversion H; subst.
  apply randint_range in E. apply randint_range in E0. auto.
Qed.

Lemma sample_window_accepts (fuel : nat) (df : dataframe) (gr : option label)
    (id : string) (s : scene) (max_x max_y : Z) :
  forall p x y0 t p',
    sample_window draws fuel df gr id s max_x max_y p = Ok (x, y0, t, p') ->
    t = window s x y0 /\ valid_tile t /\
    (128 <= x < max_x - 128 /\ 128 <= y0 < max_y - 128) /\
    img_contains_label df gr x y0 id = Ok false.
Proof.
  induction fuel as [|fuel IH]; simpl; intros p x y0 t p' H; [discriminate |].
  inv_bind H. destruct a as [[x1 y1] p1]. inv_bind H.
  destruct a as [|].
  - apply IH in H. exact H.
  - inv_bind H. destruct (Qeq_bool a no_data) eqn:Em.
    + apply IH in H. exact H.
    + inversion H; subst. repeat split.
      * exists a. split; [exact E1 | apply Qeq_bool_false; exact Em].
      * apply draw_center_range in E. lia.
      * apply draw_center_range in E. lia.
      * apply draw_center_range in E. lia.
      * apply draw_center_range in E. lia.
      * exact E0.
Qed.

End SamplerFacts.

Section BalanceFacts.

Variable draws : nat -> Z.

Lemma add_negatives_spec (k fuel : nat) (df : dataframe) (id : string) (s : scene) :
  forall st st',
    add_negatives draws k fuel df id s st = Ok st' ->
    exists ws : list (Z * Z),
      length ws = k /\
      X (glob st') = X (glob st) ++ map (fun c => window s (fst c) (snd c)) ws /\
      y (glob st') = y (glob st) ++ repeat 0 k /\
      r (glob st') = r (glob st) /\
      centers st' = centers st ++ map (fun c => (id, fst c, snd c)) ws /\
      Forall (center_ok s) ws.
Proof.
  induction k as [|k IH]; simpl; intros st st' H.
  - inversion H; subst. exists []. simpl. rewrite !app_nil_r.
    repeat split; constructor.
  - inv_bind H. inv_bind H. destruct a0 as [[[x y0] t] p'].
    apply sample_window_accepts in E0. destruct E0 as [Ht [Hv [Hr _]]].
    apply IH in H. simpl in H.
    destruct H as [ws [Hlen [HX [Hy [Hgr [Hc HF]]]]]].
    exists ((x, y0) :: ws). simpl. subst t.
    rewrite HX, Hy, Hc, <- !app_assoc. simpl.
    repeat split; auto.
    constructor; [| exact HF].
    unfold center_ok; simpl. split; [lia |]. split; [| exact Hv].
    exists a. split; [exact E | lia].
Qed.

Lemma balance_scenes_spec (quota : Z) (fuel : nat) (df : dataframe)
    (scenes : list (string * scene)) :
  forall st st',
    balance_scenes draws scenes quota fuel df st = Ok st' ->
    let k := Z.to_nat quota in
    y (glob st') = y (glob st) ++ repeat 0 (length scenes * k) /\
    r (glob st') = r (glob st) /\
    (exists ts, X (glob st') = X (glob st) ++ ts /\
                length ts = (length scenes * k)%nat /\ Forall valid_tile ts) /\
    (exists cs, centers st' = centers st ++ cs /\
                map scene_of cs = flat_map (fun sc => repeat (fst sc) k) scenes /\
                Forall (fun c => exists s, In (scene_of c, s) scenes /\
                                           center_ok s (center_of c)) cs).
Proof.
  induction scenes as [|[id s] scenes IH]; simpl; intros st st' H.
  - inversion H; subst. rewrite app_nil_r.
    split; [reflexivity | split; [reflexivity | split]].
    + exists []. rewrite app_nil_r. auto.
    + exists []. rewrite app_nil_r. auto.
  - inv_bind H. apply add_negatives_spec in E.
    destruct E as [ws [Hlen [HX [Hy [Hgr [Hc HF]]]]]].
    apply IH in H. destruct H as [Hy' [Hgr' [[ts [HX' [Hts Hv]]] [cs [Hc' [Hid Hin]]]]]].
    split; [| split; [| split]].
    + rewrite Hy', Hy, <- app_assoc, <- repeat_app. reflexivity.
    + congruence.
    + exists (map (fun c => window s (fst c) (snd c)) ws ++ ts).
      rewrite HX', HX, <- app_assoc. split; [reflexivity |].
      rewrite length_app, length_map, Hlen, Hts. split; [reflexivity |].
      apply Forall_app. split; [| exact Hv].
      apply Forall_map. eapply Forall_impl; [| exact HF].
      intros c Hcok. apply Hcok.
    + exists (map (fun c => (id, fst c, snd c)) ws ++ cs).
      rewrite Hc', Hc, <- app_assoc. split; [reflexivity |].
      rewrite map_app, map_map, Hid. split.
      * f_equal. unfold scene_of; simpl. rewrite <- Hlen.
        clear. induction ws as [|c ws IHws]; simpl; [reflexivity | f_equal; exact IHws].
      * apply Forall_app. split.
        -- apply Forall_map. eapply Forall_impl; [| exact HF].
           intros [x y0] Hcok. exists s. split; [left; reflexivity | exact Hcok].
        -- eapply Forall_impl; [| exact Hin].
           intros c [s' [Hs' Hcok]]. exists s'. split; [right; exact Hs' | exact Hcok].
Qed.

End BalanceFacts.

(** ** Counting labels *)

Lemma sum_from (l : list Z) : forall a, fold_left Z.add l a = a + fold_left Z.add l 0.
Proof.
  induction l as [|v l IH]; simpl; intros a; [lia |].
  rewrite (IH (a + v)), (IH v). lia.
Qed.

Lemma sum_binary (l : list Z) :
  Forall binary l ->
  fold_left Z.add l 0 = Z.of_nat (count 1 l) /\
  length l = (count 1 l + count 0 l)%nat.
Proof.
  unfold count. induction 1 as [|v l Hv _ [IHs IHl]]; simpl; [auto |].
  rewrite sum_from, IHs, IHl.
  destruct Hv as [-> | ->].
  - destruct (Z.eq_dec 0 1) as [H01 | _]; [discriminate H01 |].
    destruct (Z.eq_dec 0 0) as [_ | H00]; [| congruence].
    split; lia.
  - destruct (Z.eq_dec 1 1) as [_ | H11]; [| congruence].
    destruct (Z.eq_dec 1 0) as [H10 | _]; [discriminate H10 |].
    split; lia.
Qed.

Lemma num_img_to_add_binary (l : list Z) :
  Forall binary l ->
  num_img_to_add l = Z.of_nat (count 1 l) - Z.of_nat (count 0 l).
Proof.
  intros H. destruct (sum_binary l H) as [Hs Hl].
  unfold num_img_to_add. rewrite Hs, Hl. lia.
Qed.

Lemma count_app_zeros (v : Z) (l : list Z) (k : nat) :
  count v (l ++ repeat 0 k) = (count v l + (if Z.eq_dec v 0 then k else 0))%nat.
Proof.
  unfold count. rewrite count_occ_app. f_equal.
  destruct (Z.eq_dec v 0) as [-> | Hne].
  - apply count_occ_repeat_eq; reflexivity.
  - apply count_occ_repeat_neq. congruence.
Qed.

(** ** Observing a run *)

Lemma returns_intro {A : Type} (o : outcome A) (P : A -> Prop) :
  is_ok o = true -> (forall a, o = Ok a -> P a) -> returns o P.
Proof.
  destruct o as [a| |]; simpl; intros H HP; try discriminate.
  apply HP; reflexivity.
Defined.

Lemma build_training_inv (draws : nat -> Z) (fuel : nat)
    (scenes : list (string * scene)) (df : dataframe) (st : sampler) :
  build_training draws fuel scenes df = Ok st ->
  exists g, extract scenes df init = Ok g /\ balance draws fuel scenes df g = Ok st.
Proof.
  unfold build_training. intros H. inv_bind H. exists a. auto.
Qed.

(** * The claims *)

(** ** C3: no assembled tile has the no-data minimum *)

(** C3.  Every tile of the assembled training set (positive and
    negative-sampled) and of the validation set has a minimum pixel value
    different from the no-data value -32768.0; and a label whose window has
    that minimum leaves both accumulators as they were. *)
Theorem assembled_tiles_have_data (draws : nat -> Z) (fuel : nat)
    (train_scenes : list (string * scene)) (df : dataframe)
    (val_scenes : list (string * scene)) (val_df : dataframe)
    (tr va : globals) :
  assemble draws fuel train_scenes df val_scenes val_df = Ok (tr, va) ->
  (Forall valid_tile (X tr) /\ Forall valid_tile (X va)) /\
  (forall s lab g m,
      Np.min2 (window s (detect_scene_row lab) (detect_scene_column lab)) = Ok m ->
      (m == no_data)%Q ->
      extract_label s lab g = Ok {| X := X g; y := y g; r := Some lab |}).
Proof.
  intros H. split.
  - unfold assemble in H. inv_bind H. inv_bind H. inversion H; subst; clear H.
    unfold build_training in E. inv_bind E. unfold balance in E.
    apply balance_scenes_spec in E. simpl in E.
    destruct E as [_ [_ [[ts [HX [_ Hts]]] _]]].
    apply extract_extends in E1. apply extract_extends in E0.
    split.
    + rewrite HX. apply Forall_app. split; [| exact Hts].
      apply (extends_valid _ _ E1). constructor.
    + apply (extends_valid _ _ E0). constructor.
  - intros s lab g m Hm Heq. unfold extract_label. rewrite Hm. simpl.
    apply Qeq_bool_iff in Heq. rewrite Heq. reflexivity.
Qed.

Lemma assembled_tiles_have_data_witness :
  returns (assemble draws0 1 demo_scenes demo_df demo_val_scenes demo_val_df)
    (fun d => Forall valid_tile (X (fst d)) /\ Forall valid_tile (X (snd d))).
Proof.
  apply returns_intro; [vm_compute; reflexivity |].
  intros [tr va] E.
  exact (proj1 (assembled_tiles_have_data _ _ _ _ _ _ tr va E)).
Defined.

(** ** C10: tiles and labels move in lockstep *)

(** C10.  Each operation appends tiles and labels in pairs: positive
    extraction appends a list of (tile, label) pairs, negative sampling
    appends as many tiles as labels and every label it appends is 0, and
    the augmentation appends one label per synthetic tile; so the tile list
    and the label list stay equal in length. *)
Theorem tiles_and_labels_in_lockstep (draws : nat -> Z) :
  (forall scenes df g g',
      extract scenes df g = Ok g' ->
      (exists ps : list (tile * Z),
          X g' = X g ++ map fst ps /\ y g' = y g ++ map snd ps) /\
      (length (X g) = length (y g) -> length (X g') = length (y g'))) /\
  (forall fuel scenes df g st,
      balance draws fuel scenes df g = Ok st ->
      (exists ts, X (glob st) = X g ++ ts /\
                  y (glob st) = y g ++ repeat 0 (length ts)) /\
      (length (X g) = length (y g) ->
       length (X (glob st)) = length (y (glob st)))) /\
  (forall (data_augmentation : list ntile -> list ntile) d,
      (forall Xn, length (data_augmentation Xn) = length Xn) ->
      length (fst d) = length (snd d) ->
      length (fst (augment data_augmentation d)) =
      length (snd (augment data_augmentation d))).
Proof.
  split; [| split].
  - intros scenes df g g' H. apply extract_extends in H. split.
    + destruct H as [ps [HX [Hy _]]]. exists ps. auto.
    + apply extends_length; exact H.
  - intros fuel scenes df g st H. unfold balance in H.
    apply balance_scenes_spec in H. simpl in H.
    destruct H as [Hy [_ [[ts [HX [Hlen _]]] _]]].
    split.
    + exists ts. rewrite Hlen. auto.
    + intros Hg. rewrite HX, Hy, !length_app, repeat_length, Hlen, Hg. reflexivity.
  - intros aug [Xn yv] Haug Hlen. simpl in *.
    rewrite !length_app, Haug, Hlen. reflexivity.
Qed.

Lemma tiles_and_labels_in_lockstep_witness :
  returns (build_training draws0 1 demo_scenes demo_df)
    (fun st => length (X (glob st)) = length (y (glob st))) /\
  length (fst (augment (map (@rev _)) ([[[Np.NaN]]], [1]))) =
  length (snd (augment (map (@rev _)) ([[[Np.NaN]]], [1]))).
Proof.
  destruct (tiles_and_labels_in_lockstep draws0) as [Hext [Hbal Haug]].
  split.
  - apply returns_intro; [vm_compute; reflexivity |].
    intros st E. apply build_training_inv in E. destruct E as [g [E0 E]].
    apply (proj2 (Hbal _ _ _ _ _ E)).
    apply (proj2 (Hext _ _ _ _ E0)). reflexivity.
  - apply Haug; [intros Xn; apply length_map | reflexivity].
Defined.

(** ** C6: the augmented dataset *)



(** ** C2: class balance after negative sampling *)

Lemma run_view {A B : Type} (o : outcome A) (f : A -> B) (b : B) (a : A) :
  match o with Ok a' => Some (f a') | _ => None end = Some b ->
  o = Ok a -> f a = b.
Proof.
  intros H E. rewrite E in H. inversion H. reflexivity.
Qed.

Lemma balance_labels (draws : nat -> Z) (fuel : nat)
    (scenes : list (string * scene)) (df : dataframe) (g : globals) (st : sampler) :
  Forall binary (y g) ->
  balance draws fuel scenes df g = Ok st ->
  let n := Z.of_nat (length scenes) in
  let d := ones (y g) - noughts (y g) in
  ones (y (glob st)) = ones (y g) /\
  noughts (y (glob st)) = noughts (y g) + n * Z.max 0 (d / n).
Proof.
  intros Hb H. unfold balance in H. apply balance_scenes_spec in H. simpl in H.
  destruct H as [Hy _]. unfold quota_of in Hy.
  rewrite (num_img_to_add_binary _ Hb) in Hy.
  unfold ones, noughts. rewrite Hy, !count_app_zeros.
  destruct (Z.eq_dec 1 0) as [H10 | _]; [discriminate H10 |].
  destruct (Z.eq_dec 0 0) as [_ | H00]; [| congruence].
  split; [f_equal; lia |].
  rewrite Nat2Z.inj_add, Nat2Z.inj_mul. f_equal. f_equal. lia.
Qed.

(** C2, as the code has it.  When the label-1 entries are at least as many
    as the label-0 entries before balancing and the negative sampler runs
    to completion, the number of label-1 entries minus the number of
    label-0 entries lies between 0 and the number of scenes.  When the
    label-0 entries are the more numerous, the sampler appends nothing. *)
Theorem balance_within_scene_count (draws : nat -> Z) (fuel : nat)
    (scenes : list (string * scene)) (df : dataframe) (g : globals) (st : sampler) :
  extract scenes df init = Ok g ->
  balance draws fuel scenes df g = Ok st ->
  (noughts (y g) <= ones (y g) ->
   0 <= ones (y (glob st)) - noughts (y (glob st)) <= Z.of_nat (length scenes)) /\
  (ones (y g) < noughts (y g) ->
   y (glob st) = y g /\ X (glob st) = X g).
Proof.
  intros Hext Hbal.
  assert (Hb : Forall binary (y g)).
  { apply (extends_binary _ _ (extract_extends _ _ _ _ Hext)). constructor. }
  split.
  - intros Hd. destruct (balance_labels _ _ _ _ _ _ Hb Hbal) as [H1 H0].
    rewrite H1, H0. clear H1 H0.
    destruct scenes as [|sc scenes].
    + simpl in Hext. inversion Hext; subst. simpl. unfold ones, noughts. simpl. lia.
    + set (n := Z.of_nat (length (sc :: scenes))).
      assert (Hn : 0 < n) by (unfold n; simpl length; lia).
      set (d := ones (y g) - noughts (y g)).
      assert (Hd0 : 0 <= d) by (unfold d; lia).
      pose proof (Z.div_pos d n Hd0 Hn) as Hq.
      pose proof (Z.div_mod d n ltac:(lia)) as Hdm.
      pose proof (Z.mod_pos_bound d n Hn) as Hm.
      rewrite Z.max_r by exact Hq.
      assert (ones (y g) - (noughts (y g) + n * (d / n)) = d mod n) by (unfold d in *; lia).
      lia.
  - intros Hd. unfold balance in Hbal. apply balance_scenes_spec in Hbal. simpl in Hbal.
    destruct Hbal as [Hy [_ [[ts [HX [Hlen _]]] _]]].
    assert (Hk : Z.to_nat (quota_of scenes (y g)) = 0%nat).
    { unfold quota_of. rewrite (num_img_to_add_binary _ Hb).
      fold (ones (y g)) (noughts (y g)).
      destruct scenes as [|sc scenes].
      - simpl. rewrite Z.div_0_r. reflexivity.
      - assert (ones (y g) - noughts (y g) < 0) by lia.
        assert ((ones (y g) - noughts (y g)) / Z.of_nat (length (sc :: scenes)) < 0).
        { apply Z.div_lt_upper_bound; [simpl length; lia | lia]. }
        lia. }
    rewrite Hk, Nat.mul_0_r in Hy, Hlen. simpl in Hy.
    destruct ts; [| discriminate Hlen].
    rewrite !app_nil_r in *. auto.
Qed.

Lemma balance_within_scene_count_witness :
  returns (build_training draws0 1 demo_scenes demo_df)
    (fun st => 0 <= ones (y (glob st)) - noughts (y (glob st))
               <= Z.of_nat (length demo_scenes)).
Proof.
  apply returns_intro; [vm_compute; reflexivity |].
  intros st E. apply build_training_inv in E. destruct E as [g [E0 E]].
  apply (proj1 (balance_within_scene_count _ _ _ _ _ _ E0 E)).
  assert (Hy : y g = [1; 1]).
  { apply (run_view (extract demo_scenes demo_df init) (fun g0 => y g0));
      [vm_compute; reflexivity | exact E0]. }
  rewrite Hy. vm_compute. discriminate.
Defined.

(** The claim C2 as stated fails there: one scene, and the counts differ
    by two after the sampler has run to completion. *)
Lemma imbalance_exceeds_scene_count :
  returns (build_training draws0 1 neg_scenes neg_df)
    (fun st => y (glob st) = [0; 0] /\
               ~ Z.abs (ones (y (glob st)) - noughts (y (glob st)))
                 <= Z.of_nat (length neg_scenes)).
Proof.
  apply returns_intro; [vm_compute; reflexivity |].
  intros st E.
  assert (Hy : y (glob st) = [0; 0]).
  { apply (run_view (build_training draws0 1 neg_scenes neg_df) (fun s0 => y (glob s0)));
      [vm_compute; reflexivity | exact E]. }
  rewrite Hy. split; [reflexivity |]. vm_compute. intros H. apply H. reflexivity.
Qed.

(** ** Equidistribution of the draws *)








(** ** C9: distribution of the candidates and the per-scene quota *)




(** ** C1: the overlap test of the negative sampler *)

(** C1, evaluated where the code breaks it.  One 257 x 384 scene with
    vessel labels at (128, 128) and (128, 256): the sampler accepts twice
    the window centered at (128, 128), which is the center of the first
    label of that scene.  [img_contains_label] tests the global [r], bound
    to the last label iterated, (128, 256), and not its loop variable. *)
Theorem sampler_accepts_labelled_center :
  returns (build_training draws0 1 demo_scenes demo_df)
    (fun st => centers st = [("s"%string, 128, 128); ("s"%string, 128, 128)]) /\
  In (mk "s" 128 128 true) (rows_of demo_df "s") /\
  inside (mk "s" 128 128 true) 128 128 = true /\
  img_contains_label demo_df (Some (mk "s" 128 256 true)) 128 128 "s" = Ok false.
Proof.
  split; [| split; [| split]].
  - apply returns_intro; [vm_compute; reflexivity |].
    intros st E.
    apply (run_view (build_training draws0 1 demo_scenes demo_df) (fun s0 => centers s0));
      [vm_compute; reflexivity | exact E].
  - vm_compute. left. reflexivity.
  - reflexivity.
  - reflexivity.
Qed.

(** ** Slices *)

Lemma slice_length {A : Type} (a b : Z) (l : list A) :
  0 <= a <= Z.of_nat (length l) -> 0 <= b ->
  length (Np.slice a b l) = Z.to_nat (Z.min b (Z.of_nat (length l)) - a).
Proof.
  intros Ha Hb. unfold Np.slice.
  rewrite length_firstn, length_skipn.
  assert (Haa : Np.adjust a (Z.of_nat (length l)) = a).
  { unfold Np.adjust.
    destruct (Z.ltb_spec a 0); [lia |].
    destruct (Z.leb_spec (Z.of_nat (length l)) a); lia. }
  rewrite Haa. unfold Np.adjust.
  destruct (Z.ltb_spec b 0).
  - lia.
  - destruct (Z.leb_spec (Z.of_nat (length l)) b); lia.
Qed.

Lemma slice_wraps_empty {A : Type} (c : Z) (l : list A) :
  0 <= c < 128 -> 256 <= Z.of_nat (length l) ->
  Np.slice (c - 128) (c + 128) l = [].
Proof.
  intros Hc Hl. unfold Np.slice, Np.adjust.
  destruct (Z.ltb_spec (c - 128) 0); [| lia].
  destruct (Z.ltb_spec (c - 128 + Z.of_nat (length l)) 0); [lia |].
  destruct (Z.ltb_spec (c + 128) 0); [lia |].
  destruct (Z.leb_spec (Z.of_nat (length l)) (c + 128)); [lia |].
  replace (Z.to_nat (c + 128 - (c - 128 + Z.of_nat (length l)))) with 0%nat by lia.
  reflexivity.
Qed.

Lemma slice_incl {A : Type} (a b : Z) (l : list A) (x : A) :
  In x (Np.slice a b l) -> In x l.
Proof.
  unfold Np.slice. intros H.
  set (i := Z.to_nat (Np.adjust a (Z.of_nat (length l)))) in *.
  set (n := Z.to_nat (Np.adjust b (Z.of_nat (length l)) - Np.adjust a (Z.of_nat (length l)))) in *.
  rewrite <- (firstn_skipn i l). apply in_or_app. right.
  rewrite <- (firstn_skipn n (skipn i l)). apply in_or_app. left. exact H.
Qed.

Lemma slice_Forall {A : Type} (P : A -> Prop) (a b : Z) (l : list A) :
  Forall P l -> Forall P (Np.slice a b l).
Proof.
  intros H. apply Forall_forall. intros x Hx.
  apply slice_incl in Hx. revert x Hx. apply Forall_forall. exact H.
Qed.

(** The window of a scene of [h] rows and [w] columns whose first row and
    first column lie inside the scene: its stop indices are clipped. *)
Lemma window_shape (s : scene) (h w : nat) (row col : Z) :
  Np.shape h w s ->
  128 <= row < Z.of_nat h + 128 ->
  128 <= col < Z.of_nat w + 128 ->
  Np.shape (Z.to_nat (Z.min (row + 128) (Z.of_nat h) - (row - 128)))
           (Z.to_nat (Z.min (col + 128) (Z.of_nat w) - (col - 128)))
           (window s row col).
Proof.
  intros [Hh Hw] Hr Hc. unfold window, Np.slice2, Np.shape.
  rewrite length_map. split.
  - rewrite slice_length by lia. rewrite Hh. reflexivity.
  - apply Forall_map. apply slice_Forall.
    eapply Forall_impl; [| exact Hw]. intros rw Hrw. cbv beta in *.
    rewrite slice_length by lia. rewrite Hrw. reflexivity.
Qed.

Lemma shape_nonempty {A : Type} (h w : nat) (t : list (list A)) :
  Np.shape h w t -> (0 < h)%nat -> (0 < w)%nat -> concat t <> [].
Proof.
  intros [Hh Hw] H0h H0w. destruct t as [|rw t]; [simpl in Hh; lia |].
  inversion Hw as [|? ? Hrw _]; subst. simpl.
  destruct rw; [simpl in H0w; lia | discriminate].
Qed.

Lemma window_min_exists (s : scene) (h w : nat) (row col : Z) :
  Np.shape h w s ->
  128 <= row < Z.of_nat h + 128 ->
  128 <= col < Z.of_nat w + 128 ->
  exists m, Np.min2 (window s row col) = Ok m.
Proof.
  intros Hs Hr Hc. apply amin_nonempty.
  eapply shape_nonempty; [apply window_shape; eassumption | lia | lia].
Qed.

Lemma shape_repeat {A : Type} (v : A) (h w : nat) :
  Np.shape h w (repeat (repeat v w) h).
Proof.
  split; [apply repeat_length |].
  apply Forall_forall. intros rw Hrw. apply repeat_spec in Hrw. subst.
  apply repeat_length.
Qed.

(** ** C8: labels whose window leaves the scene *)

(** C8, as the code has it.  The extraction loop has no bounds check; the
    window is whatever the numpy slice gives.  A label less than 128 rows
    (or columns) from the origin of a scene of at least 256 rows (columns)
    has an empty window, and [min] raises [ValueError].  A label at least
    128 from the origin on both axes, within or past the far edges, has a
    non-empty window clipped at the far edges (256 x 256 when it lies in
    bounds); the record is then treated like any other: its tile is
    appended with its label unless the minimum is the no-data value. *)
Theorem extract_label_without_bounds_check (s : scene) (h w : nat)
    (lab : label) (g : globals) :
  Np.shape h w s ->
  let row := detect_scene_row lab in
  let col := detect_scene_column lab in
  ((0 <= row < 128 /\ 256 <= Z.of_nat h) \/
   (0 <= col < 128 /\ 256 <= Z.of_nat w) ->
   extract_label s lab g = Raise ValueError) /\
  (128 <= row < Z.of_nat h + 128 ->
   128 <= col < Z.of_nat w + 128 ->
   Np.shape (Z.to_nat (Z.min (row + 128) (Z.of_nat h) - (row - 128)))
            (Z.to_nat (Z.min (col + 128) (Z.of_nat w) - (col - 128)))
            (window s row col) /\
   exists m,
     Np.min2 (window s row col) = Ok m /\
     extract_label s lab g =
       Ok (if Qeq_bool m no_data
           then {| X := X g; y := y g; r := Some lab |}
           else {| X := X g ++ [window s row col];
                   y := y g ++ [if is_vessel lab then 1 else 0];
                   r := Some lab |})).
Proof.
  intros Hs row col. split.
  - intros Hwrap.
    assert (Hempty : concat (window s row col) = []).
    { destruct Hs as [Hh Hw]. unfold window, Np.slice2.
      destruct Hwrap as [[Hr Hh'] | [Hc Hw']].
      - rewrite slice_wraps_empty by lia. reflexivity.
      - apply concat_nil_Forall. apply Forall_map. apply slice_Forall.
        eapply Forall_impl; [| exact Hw]. intros rw Hrw. cbv beta in *.
        apply slice_wraps_empty; lia. }
    unfold extract_label, Np.min2. fold row col. rewrite Hempty. reflexivity.
  - intros Hr Hc. split; [apply window_shape; assumption |].
    destruct (window_min_exists s h w row col Hs Hr Hc) as [m Hm].
    exists m. split; [exact Hm |].
    unfold extract_label. fold row col. rewrite Hm. simpl.
    destruct (Qeq_bool m no_data); reflexivity.
Qed.

Lemma extract_label_without_bounds_check_witness :
  extract_label (zeros 300 300) (mk "s" 100 200 true) init = Raise ValueError /\
  Np.shape 178 228 (window (zeros 300 300) 250 200).
Proof.
  split.
  - apply (proj1 (extract_label_without_bounds_check (zeros 300 300) 300 300
                    (mk "s" 100 200 true) init (shape_repeat _ 300 300))).
    left. simpl. lia.
  - assert (H : 128 <= 250 < Z.of_nat 300 + 128 /\ 128 <= 200 < Z.of_nat 300 + 128)
      by (split; lia).
    pose proof (proj1 (proj2 (extract_label_without_bounds_check (zeros 300 300)
                                300 300 (mk "s" 250 200 true) init
                                (shape_repeat _ 300 300))
                         (proj1 H) (proj2 H))) as Hs.
    change (Np.shape 178 228 (window (zeros 300 300) 250 200)) in Hs.
    exact Hs.
Defined.

(** The claim C8 as stated fails on a 300 x 300 scene of zeros: the label
    at (100, 200), whose window starts above the scene, raises; the label
    at (250, 200), whose window ends below it, is not skipped. *)
Lemma out_of_bounds_label_raises_or_is_kept :
  (~ in_bounds 300 300 100 200 /\
   extract_label (zeros 300 300) (mk "s" 100 200 true) init = Raise ValueError) /\
  (~ in_bounds 300 300 250 200 /\
   returns (extract_label (zeros 300 300) (mk "s" 250 200 true) init)
     (fun g => length (X g) = 1%nat /\ y g = [1] /\
               map (@length (list Q)) (X g) = [178%nat])).
Proof.
  split; split.
  - unfold in_bounds. lia.
  - vm_compute. reflexivity.
  - unfold in_bounds. lia.
  - apply returns_intro; [vm_compute; reflexivity |].
    intros g E.
    assert (Hy : (length (X g), y g, map (@length (list Q)) (X g))
                 = (1%nat, [1], [178%nat])).
    { apply (run_view (extract_label (zeros 300 300) (mk "s" 250 200 true) init)
               (fun g0 => (length (X g0), y g0, map (@length (list Q)) (X g0))));
        [vm_compute; reflexivity | exact E]. }
    inversion Hy. auto.
Qed.

(** ** C4: a scene filled with no-data *)

Lemma window_all_no_data (s : scene) (row col : Z) :
  all_no_data s -> all_no_data (window s row col).
Proof.
  intros H. unfold window, Np.slice2, all_no_data.
  apply Forall_map. apply slice_Forall.
  eapply Forall_impl; [| exact H]. intros rw Hrw. apply slice_Forall. exact Hrw.
Qed.

Lemma min2_all_no_data (t : tile) (m : Q) :
  all_no_data t -> Np.min2 t = Ok m -> Qeq_bool m no_data = true.
Proof.
  intros H Hm. apply amin_In in Hm. apply in_concat in Hm.
  destruct Hm as [rw [Hrw Hin]].
  apply Qeq_bool_iff.
  pose proof (proj1 (Forall_forall _ _) H rw Hrw) as Hall.
  exact (proj1 (Forall_forall _ _) Hall m Hin).
Qed.

Lemma img_contains_label_bound (df : dataframe) (r0 : label) (x y0 : Z) (id : string) :
  exists c, img_contains_label df (Some r0) x y0 id = Ok c.
Proof.
  unfold img_contains_label.
  induction (rows_of df id) as [|row rows IH]; simpl.
  - exists false; reflexivity.
  - destruct (inside r0 x y0); [exists true; reflexivity | exact IH].
Qed.

Lemma draw_center_returns (draws : nat -> Z) (max_x max_y : Z) (p : nat) :
  256 < max_x -> 256 < max_y ->
  exists x y0 p', draw_center draws max_x max_y p = Ok (x, y0, p').
Proof.
  intros Hx Hy. unfold draw_center, randint.
  destruct (Z.ltb_spec 128 (max_x - 128)); [| lia].
  simpl.
  destruct (Z.ltb_spec 128 (max_y - 128)); [| lia].
  simpl. eauto.
Qed.

Lemma len0_shape (s : scene) (h w : nat) :
  Np.shape h w s -> (0 < h)%nat -> len0 s = Ok (Z.of_nat w).
Proof.
  intros [Hh Hw] H0. destruct s as [|rw rest]; [simpl in Hh; lia |].
  inversion Hw; subst. reflexivity.
Qed.

Section BlankScene.

Variable draws : nat -> Z.
Variable s : scene.
Variables h w : nat.
Hypothesis s_shape : Np.shape h w s.
Hypothesis s_blank : all_no_data s.

Lemma extract_label_blank (lab : label) (g : globals) :
  extract_label s lab g = Raise ValueError \/
  extract_label s lab g = Ok {| X := X g; y := y g; r := Some lab |}.
Proof.
  unfold extract_label.
  destruct (Np.min2 (window s (detect_scene_row lab) (detect_scene_column lab)))
    as [m| e |] eqn:E; simpl.
  - right. rewrite (min2_all_no_data _ m (window_all_no_data _ _ _ s_blank) E).
    reflexivity.
  - left. unfold Np.min2, Np.amin in E.
    destruct (concat _); [inversion E; reflexivity | discriminate].
  - unfold Np.min2, Np.amin in E. destruct (concat _); discriminate.
Qed.

Hypothesis tall : (256 < h)%nat.
Hypothesis wide : (256 < w)%nat.

Lemma sample_window_blank (fuel : nat) (df : dataframe) (r0 : label)
    (id : string) :
  forall p,
    sample_window draws fuel df (Some r0) id s (Z.of_nat h) (Z.of_nat w) p = Running.
Proof.
  induction fuel as [|fuel IH]; intros p; [reflexivity |].
  cbn [sample_window].
  destruct (draw_center_returns draws (Z.of_nat h) (Z.of_nat w) p)
    as [x [y0 [p' Hd]]]; [lia | lia |].
  rewrite Hd. cbn [bind].
  destruct (img_contains_label_bound df r0 x y0 id) as [c Hc].
  rewrite Hc. cbn [bind]. destruct c; [apply IH |].
  apply draw_center_range in Hd.
  destruct (window_min_exists s h w x y0 s_shape) as [m Hm]; [lia | lia |].
  rewrite Hm. cbn [bind].
  rewrite (min2_all_no_data _ m (window_all_no_data _ _ _ s_blank) Hm).
  apply IH.
Qed.

Lemma add_negatives_blank (k fuel : nat) (df : dataframe) (r0 : label)
    (id : string) (st : sampler) :
  r (glob st) = Some r0 ->
  add_negatives draws (S k) fuel df id s st = Running.
Proof.
  intros Hr. cbn [add_negatives].
  rewrite (len0_shape s h w s_shape) by lia. cbn [bind].
  rewrite Hr, (proj1 s_shape).
  rewrite sample_window_blank. reflexivity.
Qed.

Lemma balance_scenes_blank_first (id : string) (rest : list (string * scene))
    (quota : Z) (fuel : nat) (df : dataframe) (r0 : label) (st : sampler) :
  0 < quota ->
  r (glob st) = Some r0 ->
  balance_scenes draws ((id, s) :: rest) quota fuel df st = Running.
Proof.
  intros Hq Hr. cbn [balance_scenes].
  destruct (Z.to_nat quota) as [|k] eqn:Ek; [lia |].
  rewrite (add_negatives_blank k fuel df r0 id st Hr). reflexivity.
Qed.

End BlankScene.

Lemma blank_all_no_data (h w : nat) : all_no_data (blank h w).
Proof.
  unfold all_no_data, blank. apply Forall_forall. intros rw Hrw.
  apply repeat_spec in Hrw. subst. apply Forall_forall. intros q Hq.
  apply repeat_spec in Hq. subst. apply Qeq_refl.
Qed.

(** C4, as the code has it.  On a scene filled with the no-data value, the
    extraction of a label appends nothing (it skips the label, or raises
    [ValueError] on an empty window).  The rejection loop has no retry cap
    and no error of its own: on such a scene of more than 256 rows and
    columns every candidate is rejected, so after any number of iterations
    the loop is still running, and so is every round of the sampler that
    enters it. *)
Theorem blank_scene_loops_without_cap (draws : nat -> Z) (s : scene) (h w : nat) :
  Np.shape h w s ->
  all_no_data s ->
  (forall lab g,
      extract_label s lab g = Raise ValueError \/
      extract_label s lab g = Ok {| X := X g; y := y g; r := Some lab |}) /\
  ((256 < h)%nat -> (256 < w)%nat ->
   (forall fuel df r0 id p,
       sample_window draws fuel df (Some r0) id s (Z.of_nat h) (Z.of_nat w) p
       = Running) /\
   (forall k fuel df r0 id st,
       r (glob st) = Some r0 ->
       add_negatives draws (S k) fuel df id s st = Running)).
Proof.
  intros Hs Hb. split.
  - intros lab g. apply (extract_label_blank s Hb).
  - intros Hh Hw. split.
    + intros fuel df r0 id p.
      apply (sample_window_blank draws s h w Hs Hb Hh Hw).
    + intros k fuel df r0 id st Hr.
      apply (add_negatives_blank draws s h w Hs Hb Hh Hw k fuel df r0 id st Hr).
Qed.

Lemma blank_scene_loops_without_cap_witness :
  sample_window draws0 1000 [] (Some (mk "a" 129 129 true)) "b" (blank 257 257)
    (Z.of_nat 257) (Z.of_nat 257) 0 = Running.
Proof.
  apply (proj1 (proj2 (blank_scene_loops_without_cap draws0 (blank 257 257) 257 257
                  (shape_repeat _ 257 257) (blank_all_no_data 257 257))
                 ltac:(lia) ltac:(lia))).
Defined.

(** The claim C4 as stated fails there: whatever the draws and however
    many iterations are allowed, the run neither returns nor reports an
    error. *)
Lemma blank_scene_sampler_never_returns :
  never_leaves (fun draws fuel => build_training draws fuel blank_scenes blank_df).
Proof.
  intros draws fuel. unfold build_training.
  assert (Hok : is_ok (extract blank_scenes blank_df init) = true)
    by (vm_compute; reflexivity).
  destruct (extract blank_scenes blank_df init) as [g| |] eqn:E0;
    try discriminate Hok.
  assert (Hv : (y g, r g) = ([1; 1], Some (mk "a" 129 129 true))).
  { apply (run_view (extract blank_scenes blank_df init) (fun g0 => (y g0, r g0)));
      [vm_compute; reflexivity | exact E0]. }
  inversion Hv as [[Hy Hr]].
  cbn [bind]. unfold balance. rewrite Hy.
  apply (balance_scenes_blank_first draws (blank 257 257) 257 257
           (shape_repeat _ 257 257) (blank_all_no_data 257 257)
           ltac:(lia) ltac:(lia) "b" _ _ fuel blank_df (mk "a" 129 129 true)).
  - vm_compute. reflexivity.
  - exact Hr.
Qed.

(** ** C7 and C5: the normaliser *)

Lemma In_pixels (tiles : list tile) (t : tile) (rw : list Q) (x : Q) :
  In t tiles -> In rw t -> In x rw -> In x (concat (concat tiles)).
Proof.
  intros Ht Hrw Hx. apply in_concat. exists rw. split; [| exact Hx].
  apply in_concat. exists t. auto.
Qed.

Lemma min3_le_max3 (tiles : list tile) (m M : Q) :
  Np.min3 tiles = Ok m -> Np.max3 tiles = Ok M -> (m <= M)%Q.
Proof.
  intros Hm HM. apply (amax_ge _ _ HM). apply amin_In. exact Hm.
Qed.

Lemma map3_ext_in {A B : Type} (f g : A -> B) (l : list (list (list A))) :
  (forall t rw x, In t l -> In rw t -> In x rw -> f x = g x) ->
  map (map (map f)) l = map (map (map g)) l.
Proof.
  intros H. apply map_ext_in. intros t Ht.
  apply map_ext_in. intros rw Hrw.
  apply map_ext_in. intros x Hx. eapply H; eassumption.
Qed.

(** C7.  When the global maximum [M] differs from the global minimum [m],
    the normaliser returns the tiles with every pixel [x] replaced by the
    finite value [(x - m) / (M - m)]; that value lies in [0, 1], and
    multiplying it by [M - m] and adding [m] gives back [x]. *)
Theorem normalize_unit_range (tiles : list tile) (m M : Q) :
  Np.min3 tiles = Ok m ->
  Np.max3 tiles = Ok M ->
  ~ (M == m)%Q ->
  normalize tiles =
    Ok (map (map (map (fun x => Np.Fin ((x - m) / (M - m))))) tiles) /\
  forall t rw x, In t tiles -> In rw t -> In x rw ->
    (0 <= (x - m) / (M - m) <= 1)%Q /\
    ((x - m) / (M - m) * (M - m) + m == x)%Q.
Proof.
  intros Hm HM Hne.
  pose proof (min3_le_max3 _ _ _ Hm HM) as Hle.
  assert (Hpos : (0 < M - m)%Q).
  { destruct (Qlt_le_dec m M) as [Hlt | Hge].
    - lra.
    - exfalso. apply Hne. apply Qle_antisym; assumption. }
  split.
  - unfold normalize. rewrite Hm, HM. cbn [bind]. f_equal.
    apply map3_ext_in. intros t rw x _ _ _. unfold Np.div.
    destruct (Qeq_bool (M - m) 0) eqn:E; [| reflexivity].
    apply Qeq_bool_iff in E. lra.
  - intros t rw x Ht Hrw Hx.
    pose proof (In_pixels _ _ _ _ Ht Hrw Hx) as Hin.
    pose proof (amin_le _ _ Hm x Hin) as Hlo.
    pose proof (amax_ge _ _ HM x Hin) as Hhi.
    split; [split |].
    + apply Qle_shift_div_l; [exact Hpos | lra].
    + apply Qle_shift_div_r; [exact Hpos | lra].
    + field. lra.
Qed.

Lemma normalize_unit_range_witness :
  normalize [[[0 # 1; 3 # 1]; [1 # 1; 4 # 1]]] =
    Ok (map (map (map (fun x => Np.Fin ((x - (0 # 1)) / ((4 # 1) - (0 # 1))))))
          [[[0 # 1; 3 # 1]; [1 # 1; 4 # 1]]]) /\
  (0 <= ((3 # 1) - (0 # 1)) / ((4 # 1) - (0 # 1)) <= 1)%Q.
Proof.
  destruct (normalize_unit_range [[[0 # 1; 3 # 1]; [1 # 1; 4 # 1]]] (0 # 1) (4 # 1))
    as [Hn Hp].
  - reflexivity.
  - reflexivity.
  - intros H. vm_compute in H. discriminate H.
  - split; [exact Hn |].
    apply (Hp [[0 # 1; 3 # 1]; [1 # 1; 4 # 1]] [0 # 1; 3 # 1] (3 # 1)); simpl; auto.
Defined.

(** C5, as the code has it.  When the global maximum equals the global
    minimum the normaliser raises nothing: it returns the tiles with every
    pixel replaced by NaN, the quotient 0/0. *)
Theorem normalize_constant_gives_nan (tiles : list tile) (m M : Q) :
  Np.min3 tiles = Ok m ->
  Np.max3 tiles = Ok M ->
  (M == m)%Q ->
  normalize tiles = Ok (map (map (map (fun _ => Np.NaN))) tiles).
Proof.
  intros Hm HM Heq. unfold normalize. rewrite Hm, HM. cbn [bind]. f_equal.
  apply map3_ext_in. intros t rw x Ht Hrw Hx.
  pose proof (In_pixels _ _ _ _ Ht Hrw Hx) as Hin.
  pose proof (amin_le _ _ Hm x Hin) as Hlo.
  pose proof (amax_ge _ _ HM x Hin) as Hhi.
  unfold Np.div.
  assert (E1 : Qeq_bool (M - m) 0 = true) by (apply Qeq_bool_iff; lra).
  assert (E2 : Qeq_bool (x - m) 0 = true) by (apply Qeq_bool_iff; lra).
  rewrite E1, E2. reflexivity.
Qed.

Lemma normalize_constant_gives_nan_witness :
  normalize [[[7 # 1; 7 # 1]]; [[14 # 2; 7 # 1]]] =
    Ok [[[Np.NaN; Np.NaN]]; [[Np.NaN; Np.NaN]]].
Proof.
  apply (normalize_constant_gives_nan [[[7 # 1; 7 # 1]]; [[14 # 2; 7 # 1]]]
           (7 # 1) (7 # 1)).
  - reflexivity.
  - reflexivity.
  - reflexivity.
Defined.

(** The claim C5 as stated fails on one 256 x 256 tile of zeros: the
    normaliser returns, and what it returns is a tile of NaN. *)
Lemma zero_variance_is_not_reported :
  normalize [zeros 256 256] = Ok [repeat (repeat Np.NaN 256) 256] /\
  forall e, normalize [zeros 256 256] <> Raise e.
Proof.
  assert (H : normalize [zeros 256 256] = Ok [repeat (repeat Np.NaN 256) 256])
    by (vm_compute; reflexivity).
  split; [exact H |]. intros e He. rewrite H in He. discriminate He.
Qed.

(** * Further properties of the cells *)

(** ** The overlap helper and the global [r] *)

(** X1.  [img_contains_label] never looks at the rows it iterates: for a
    scene without label rows it answers False; otherwise it raises
    [NameError] when [r] is unbound, and answers the test of line 130 on
    [r] alone when it is bound. *)
Theorem img_contains_label_reads_r (df : dataframe) (gr : option label)
    (x y0 : Z) (id : string) :
  img_contains_label df gr x y0 id =
    match rows_of df id, gr with
    | [], _ => Ok false
    | _ :: _, None => Raise NameError
    | _ :: _, Some r0 => Ok (inside r0 x y0)
    end.
Proof.
  unfold img_contains_label.
  induction (rows_of df id) as [|row rows IH]; [reflexivity |].
  simpl. destruct gr as [r0|]; [| reflexivity].
  destruct (inside r0 x y0) eqn:E; [reflexivity |].
  rewrite IH. destruct rows; reflexivity.
Qed.

Lemma last_row_app (a b : list label) (gr : option label) :
  last_row (a ++ b) gr = last_row b (last_row a gr).
Proof.
  unfold last_row. rewrite rev_app_distr.
  destruct (rev b) as [|lab rb]; simpl; reflexivity.
Qed.

Lemma extract_rows_r (s : scene) (rows : list label) :
  forall g g', extract_rows s rows g = Ok g' -> r g' = last_row rows (r g).
Proof.
  induction rows as [|lab rows IH]; simpl; intros g g' H.
  - inversion H; subst. reflexivity.
  - inv_bind H. apply IH in H. rewrite H.
    apply extract_label_cases in E. destruct E as [Hr _]. rewrite Hr.
    change (lab :: rows) with ([lab] ++ rows). rewrite last_row_app. reflexivity.
Qed.

(** X2.  When an extraction loop returns, [r] is bound to the last label
    row it iterated, over all scenes in dictionary order; it keeps its
    earlier binding when no row was iterated. *)
Theorem extract_leaves_last_row (scenes : list (string * scene)) (df : dataframe) :
  forall g g', extract scenes df g = Ok g' -> r g' = last_row (visited scenes df) (r g).
Proof.
  unfold visited. induction scenes as [|[id s] scenes IH]; simpl; intros g g' H.
  - inversion H; subst. reflexivity.
  - inv_bind H. apply IH in H. apply extract_rows_r in E.
    rewrite H, E, last_row_app. reflexivity.
Qed.

Lemma extract_leaves_last_row_witness :
  returns (extract demo_scenes demo_df init)
    (fun g => r g = Some (mk "s" 128 256 true)).
Proof.
  apply returns_intro; [vm_compute; reflexivity |].
  intros g E. rewrite (extract_leaves_last_row _ _ _ _ E). reflexivity.
Defined.

Lemma rejected_when_inside (df : dataframe) (r0 : label) (x y0 : Z) (id : string) :
  img_contains_label df (Some r0) x y0 id = Ok false ->
  rows_of df id <> [] -> inside r0 x y0 = false.
Proof.
  unfold img_contains_label. destruct (rows_of df id) as [|row rows]; [congruence |].
  simpl. intros H _. destruct (inside r0 x y0); [discriminate H | reflexivity].
Qed.

Lemma add_negatives_tested (draws : nat -> Z) (k fuel : nat) (df : dataframe)
    (id : string) (s : scene) :
  forall st st',
    add_negatives draws k fuel df id s st = Ok st' ->
    r (glob st') = r (glob st) /\
    exists cs, centers st' = centers st ++ cs /\
      Forall (fun c => img_contains_label df (r (glob st)) (fst (center_of c))
                         (snd (center_of c)) (scene_of c) = Ok false) cs.
Proof.
  induction k as [|k IH]; simpl; intros st st' H.
  - inversion H; subst. split; [reflexivity |]. exists []. rewrite app_nil_r. auto.
  - inv_bind H. inv_bind H. destruct a0 as [[[x y0] t] p'].
    apply sample_window_accepts in E0. destruct E0 as [_ [_ [_ Hc]]].
    apply IH in H. simpl in H. destruct H as [Hr [cs [Hcs HF]]].
    split; [exact Hr |].
    exists ((id, x, y0) :: cs). rewrite Hcs, <- app_assoc. split; [reflexivity |].
    constructor; [exact Hc | exact HF].
Qed.

Lemma balance_scenes_tested (draws : nat -> Z) (quota : Z) (fuel : nat)
    (df : dataframe) (scenes : list (string * scene)) :
  forall st st',
    balance_scenes draws scenes quota fuel df st = Ok st' ->
    r (glob st') = r (glob st) /\
    exists cs, centers st' = centers st ++ cs /\
      Forall (fun c => img_contains_label df (r (glob st)) (fst (center_of c))
                         (snd (center_of c)) (scene_of c) = Ok false) cs.
Proof.
  induction scenes as [|[id s] scenes IH]; simpl; intros st st' H.
  - inversion H; subst. split; [reflexivity |]. exists []. rewrite app_nil_r. auto.
  - inv_bind H. apply add_negatives_tested in E. destruct E as [Hr [cs [Hcs HF]]].
    apply IH in H. destruct H as [Hr' [cs' [Hcs' HF']]].
    split; [congruence |].
    exists (cs ++ cs'). rewrite Hcs', Hcs, <- app_assoc. split; [reflexivity |].
    apply Forall_app. split; [exact HF |]. rewrite Hr in HF'. exact HF'.
Qed.

(** X3.  What the sampler does guarantee: every window it appends, in a
    scene that has label rows, passed the test of line 130 against the one
    label [r] was bound to when balancing started. *)
Theorem accepted_centers_avoid_r (draws : nat -> Z) (fuel : nat)
    (scenes : list (string * scene)) (df : dataframe) (g : globals)
    (st : sampler) (r0 : label) :
  balance draws fuel scenes df g = Ok st ->
  r g = Some r0 ->
  Forall (fun c => rows_of df (scene_of c) <> [] ->
                   inside r0 (fst (center_of c)) (snd (center_of c)) = false)
         (centers st).
Proof.
  intros H Hr. unfold balance in H. apply balance_scenes_tested in H.
  simpl in H. destruct H as [_ [cs [Hcs HF]]]. rewrite Hcs.
  eapply Forall_impl; [| exact HF]. intros c Hc Hrows.
  rewrite Hr in Hc. eapply rejected_when_inside; eassumption.
Qed.

Lemma accepted_centers_avoid_r_witness :
  returns (build_training draws0 1 demo_scenes demo_df)
    (fun st => Forall (fun c => rows_of demo_df (scene_of c) <> [] ->
                         inside (mk "s" 128 256 true) (fst (center_of c))
                           (snd (center_of c)) = false)
                      (centers st)).
Proof.
  apply returns_intro; [vm_compute; reflexivity |].
  intros st E. apply build_training_inv in E. destruct E as [g [E0 E]].
  apply (accepted_centers_avoid_r _ _ _ _ _ _ _ E).
  apply (run_view (extract demo_scenes demo_df init) (fun g0 => r g0));
    [vm_compute; reflexivity | exact E0].
Defined.

(** ** Shapes of the tiles *)

Lemma center_ok_shape (s : scene) (h w : nat) (c : Z * Z) :
  Np.shape h w s -> center_ok s c -> Np.shape 256 256 (window s (fst c) (snd c)).
Proof.
  intros Hs [Hx [[w0 [Hl Hy]] _]].
  pose proof (proj1 Hs) as Hh. rewrite Hh in Hx.
  rewrite (len0_shape s h w Hs) in Hl by lia. inversion Hl; subst w0.
  pose proof (window_shape s h w (fst c) (snd c) Hs ltac:(lia) ltac:(lia)) as Hw.
  replace (Z.to_nat (Z.min (fst c + 128) (Z.of_nat h) - (fst c - 128)))
    with 256%nat in Hw by lia.
  replace (Z.to_nat (Z.min (snd c + 128) (Z.of_nat w) - (snd c - 128)))
    with 256%nat in Hw by lia.
  exact Hw.
Qed.

Lemma balance_scenes_shapes (draws : nat -> Z) (quota : Z) (fuel : nat)
    (df : dataframe) (scenes : list (string * scene)) :
  rectangular scenes ->
  forall st st',
    balance_scenes draws scenes quota fuel df st = Ok st' ->
    exists ts, X (glob st') = X (glob st) ++ ts /\ Forall (Np.shape 256 256) ts.
Proof.
  induction 1 as [|[id s] scenes [h [w Hs]] _ IH]; simpl; intros st st' H.
  - inversion H; subst. exists []. rewrite app_nil_r. auto.
  - inv_bind H. apply add_negatives_spec in E.
    destruct E as [ws [_ [HX [_ [_ [_ HF]]]]]].
    apply IH in H. destruct H as [ts [HX' Hts]].
    exists (map (fun c => window s (fst c) (snd c)) ws ++ ts).
    rewrite HX', HX, <- app_assoc. split; [reflexivity |].
    apply Forall_app. split; [| exact Hts].
    apply Forall_map. eapply Forall_impl; [| exact HF].
    intros c Hc. eapply center_ok_shape; eassumption.
Qed.

(** X4.  On rectangular scenes, every tile the negative sampler appends
    is a full 256 x 256 window: its candidates are drawn far enough from
    the edges for the slice never to be clipped. *)
Theorem negative_tiles_full_size (draws : nat -> Z) (fuel : nat)
    (scenes : list (string * scene)) (df : dataframe) (g : globals) (st : sampler) :
  rectangular scenes ->
  balance draws fuel scenes df g = Ok st ->
  exists ts, X (glob st) = X g ++ ts /\ Forall (Np.shape 256 256) ts.
Proof.
  intros Hr H. unfold balance in H.
  apply (balance_scenes_shapes _ _ _ _ _ Hr) in H. exact H.
Qed.

Lemma demo_rectangular : rectangular demo_scenes.
Proof.
  constructor; [| constructor].
  exists 257%nat, 384%nat. apply shape_repeat.
Qed.

Lemma negative_tiles_full_size_witness :
  returns (build_training draws0 1 demo_scenes demo_df)
    (fun st => exists g ts, extract demo_scenes demo_df init = Ok g /\
                            X (glob st) = X g ++ ts /\
                            Forall (Np.shape 256 256) ts).
Proof.
  apply returns_intro; [vm_compute; reflexivity |].
  intros st E. apply build_training_inv in E. destruct E as [g [E0 E]].
  destruct (negative_tiles_full_size _ _ _ _ _ _ demo_rectangular E) as [ts Hts].
  exists g, ts. split; [exact E0 | exact Hts].
Defined.

Lemma extract_label_in_bounds (s : scene) (h w : nat) (lab : label) (g : globals) :
  Np.shape h w s ->
  in_bounds h w (detect_scene_row lab) (detect_scene_column lab) ->
  exists g', extract_label s lab g = Ok g' /\
    exists ts, X g' = X g ++ ts /\ Forall (Np.shape 256 256) ts /\
               (length ts <= 1)%nat.
Proof.
  intros Hs [Hr0 [Hr1 [Hc0 Hc1]]].
  set (row := detect_scene_row lab) in *. set (col := detect_scene_column lab) in *.
  destruct (window_min_exists s h w row col Hs ltac:(lia) ltac:(lia)) as [m Hm].
  pose proof (window_shape s h w row col Hs ltac:(lia) ltac:(lia)) as Hw.
  replace (Z.to_nat (Z.min (row + 128) (Z.of_nat h) - (row - 128)))
    with 256%nat in Hw by lia.
  replace (Z.to_nat (Z.min (col + 128) (Z.of_nat w) - (col - 128)))
    with 256%nat in Hw by lia.
  unfold extract_label. fold row col. rewrite Hm. cbn [bind].
  destruct (Qeq_bool m no_data); cbn [negb]; eexists; (split; [reflexivity |]); cbn [X].
  - exists []. rewrite app_nil_r. repeat split; auto.
  - exists [window s row col]. repeat split; auto.
Qed.

Lemma extract_rows_in_bounds (s : scene) (h w : nat) (rows : list label) :
  Np.shape h w s ->
  Forall (fun l => in_bounds h w (detect_scene_row l) (detect_scene_column l)) rows ->
  forall g, exists g', extract_rows s rows g = Ok g' /\
    exists ts, X g' = X g ++ ts /\ Forall (Np.shape 256 256) ts /\
               (length ts <= length rows)%nat.
Proof.
  intros Hs. induction 1 as [|lab rows Hlab _ IH]; intros g; simpl.
  - exists g. split; [reflexivity |]. exists []. rewrite app_nil_r. auto.
  - destruct (extract_label_in_bounds s h w lab g Hs Hlab)
      as [g1 [E1 [ts1 [HX1 [HF1 Hl1]]]]].
    destruct (IH g1) as [g2 [E2 [ts2 [HX2 [HF2 Hl2]]]]].
    exists g2. rewrite E1. cbn [bind]. split; [exact E2 |].
    exists (ts1 ++ ts2). rewrite HX2, HX1, <- app_assoc, length_app.
    repeat split; [apply Forall_app; auto | lia].
Qed.

(** X5.  When every scene is rectangular and the window of every label
    row lies inside its scene, an extraction loop raises nothing: it
    returns, every tile it appended is 256 x 256, and it appended at most
    one tile per row iterated. *)
Theorem extract_in_bounds_returns (scenes : list (string * scene)) (df : dataframe) :
  Forall (fun sc => exists h w,
            Np.shape h w (snd sc) /\
            Forall (fun l => in_bounds h w (detect_scene_row l) (detect_scene_column l))
                   (rows_of df (fst sc))) scenes ->
  forall g, exists g', extract scenes df g = Ok g' /\
    exists ts, X g' = X g ++ ts /\ Forall (Np.shape 256 256) ts /\
               (length ts <= length (visited scenes df))%nat.
Proof.
  unfold visited.
  induction 1 as [|[id s] scenes [h [w [Hs Hrows]]] _ IH]; intros g; simpl.
  - exists g. split; [reflexivity |]. exists []. rewrite app_nil_r. auto.
  - simpl in Hs, Hrows.
    destruct (extract_rows_in_bounds s h w _ Hs Hrows g)
      as [g1 [E1 [ts1 [HX1 [HF1 Hl1]]]]].
    destruct (IH g1) as [g2 [E2 [ts2 [HX2 [HF2 Hl2]]]]].
    exists g2. rewrite E1. cbn [bind]. split; [exact E2 |].
    exists (ts1 ++ ts2). rewrite HX2, HX1, <- app_assoc, !length_app.
    repeat split; [apply Forall_app; auto | lia].
Qed.

Lemma extract_in_bounds_returns_witness :
  exists g', extract demo_scenes demo_df init = Ok g' /\
    exists ts, X g' = X init ++ ts /\ Forall (Np.shape 256 256) ts /\
               (length ts <= length (visited demo_scenes demo_df))%nat.
Proof.
  apply (extract_in_bounds_returns demo_scenes demo_df).
  constructor; [| constructor].
  exists 257%nat, 384%nat. split; [apply shape_repeat |].
  repeat constructor; simpl; lia.
Defined.

(** ** Labels of scenes that were not loaded *)

Lemma rows_of_known (known : list string) (df : dataframe) (id : string) :
  In id known ->
  rows_of (filter (fun l => existsb (String.eqb (scene_id l)) known) df) id
  = rows_of df id.
Proof.
  intros Hin. unfold rows_of. induction df as [|l df IH]; [reflexivity |].
  simpl. destruct (String.eqb (scene_id l) id) eqn:E.
  - assert (Hk : existsb (String.eqb (scene_id l)) known = true).
    { apply existsb_exists. exists id. auto. }
    rewrite Hk. simpl. rewrite E, IH. reflexivity.
  - destruct (existsb (String.eqb (scene_id l)) known); simpl;
      [rewrite E |]; exact IH.
Qed.

Lemma extract_known (known : list string) (df : dataframe)
    (scenes : list (string * scene)) :
  (forall id, In id (map fst scenes) -> In id known) ->
  forall g,
    extract scenes (filter (fun l => existsb (String.eqb (scene_id l)) known) df) g
    = extract scenes df g.
Proof.
  induction scenes as [|[id s] scenes IH]; intros Hk g; [reflexivity |].
  simpl. rewrite rows_of_known by (apply Hk; left; reflexivity).
  destruct (extract_rows s (rows_of df id) g); simpl; try reflexivity.
  apply IH. intros id' Hid'. apply Hk. right. exact Hid'.
Qed.

(** X6.  A label row whose scene is not a key of the scene dictionary has
    no effect on an extraction loop: removing all such rows from the
    dataframe changes neither the outcome nor the final state. *)
Theorem extract_ignores_unknown_scenes (scenes : list (string * scene))
    (df : dataframe) (g : globals) :
  extract scenes
    (filter (fun l => existsb (String.eqb (scene_id l)) (map fst scenes)) df) g
  = extract scenes df g.
Proof.
  apply extract_known. auto.
Qed.

(** ** Scenes too small for the sampler *)

(** X7.  A round of the negative sampler on a scene without rows raises
    [IndexError] (from [len(scene[0])]); on a scene with at most 256 rows
    or at most 256 columns its first draw raises [ValueError], the range
    of [np.random.randint] being empty. *)
Theorem sampler_needs_margin (draws : nat -> Z) (k fuel : nat) (df : dataframe)
    (id : string) (s : scene) (st : sampler) :
  (s = [] -> add_negatives draws (S k) fuel df id s st = Raise IndexError) /\
  (forall w, len0 s = Ok w ->
             Z.of_nat (length s) <= 256 \/ w <= 256 ->
             add_negatives draws (S k) (S fuel) df id s st = Raise ValueError).
Proof.
  split.
  - intros ->. reflexivity.
  - intros w Hl Hsmall. cbn [add_negatives]. rewrite Hl. cbn [bind sample_window].
    assert (Hd : draw_center draws (Z.of_nat (length s)) w (pos st) = Raise ValueError).
    { unfold draw_center, randint.
      destruct (Z.ltb_spec 128 (Z.of_nat (length s) - 128)); [| reflexivity].
      cbn [bind].
      destruct (Z.ltb_spec 128 (w - 128)); [lia | reflexivity]. }
    rewrite Hd. reflexivity.
Qed.

Lemma sampler_needs_margin_witness :
  add_negatives draws0 1 1 [] "s" (zeros 256 300)
    {| glob := init; pos := 0; centers := [] |} = Raise ValueError.
Proof.
  apply (proj2 (sampler_needs_margin draws0 0 0 [] "s" (zeros 256 300)
                  {| glob := init; pos := 0; centers := [] |}) 300).
  - reflexivity.
  - left. simpl. lia.
Defined.

(** ** What balancing leaves over *)

(** X8.  With at least one scene and no fewer label-1 than label-0
    entries before balancing, a completed run of the sampler leaves
    exactly [imbalance mod len(train_scenes)] more label-1 than label-0
    entries; the classes end up equal exactly when the number of scenes
    divides the imbalance. *)
Theorem residual_imbalance (draws : nat -> Z) (fuel : nat)
    (scenes : list (string * scene)) (df : dataframe) (g : globals) (st : sampler) :
  extract scenes df init = Ok g ->
  balance draws fuel scenes df g = Ok st ->
  scenes <> [] ->
  noughts (y g) <= ones (y g) ->
  let n := Z.of_nat (length scenes) in
  let d := ones (y g) - noughts (y g) in
  ones (y (glob st)) - noughts (y (glob st)) = d mod n /\
  (ones (y (glob st)) = noughts (y (glob st)) <-> (n | d)).
Proof.
  intros Hext Hbal Hne Hd n d.
  assert (Hb : Forall binary (y g)).
  { apply (extends_binary _ _ (extract_extends _ _ _ _ Hext)). constructor. }
  destruct (balance_labels _ _ _ _ _ _ Hb Hbal) as [H1 H0].
  fold n d in H0.
  assert (Hn : 0 < n).
  { unfold n. destruct scenes; [congruence | simpl length; lia]. }
  assert (Hd0 : 0 <= d) by (unfold d; lia).
  pose proof (Z.div_pos d n Hd0 Hn) as Hq.
  pose proof (Z.div_mod d n ltac:(lia)) as Hdm.
  rewrite Z.max_r in H0 by exact Hq.
  assert (Hres : ones (y (glob st)) - noughts (y (glob st)) = d mod n).
  { rewrite H1, H0. unfold d in *. lia. }
  split; [exact Hres |].
  rewrite <- (Z.mod_divide d n) by lia. lia.
Qed.

Lemma residual_imbalance_witness :
  returns (build_training draws0 1 demo_scenes demo_df)
    (fun st => ones (y (glob st)) - noughts (y (glob st)) = 0).
Proof.
  apply returns_intro; [vm_compute; reflexivity |].
  intros st E. apply build_training_inv in E. destruct E as [g [E0 E]].
  assert (Hy : y g = [1; 1]).
  { apply (run_view (extract demo_scenes demo_df init) (fun g0 => y g0));
      [vm_compute; reflexivity | exact E0]. }
  assert (Hne : demo_scenes <> []) by discriminate.
  assert (Hd : noughts (y g) <= ones (y g)) by (rewrite Hy; vm_compute; discriminate).
  destruct (residual_imbalance _ _ _ _ _ _ E0 E Hne Hd) as [Hres _].
  rewrite Hres, Hy. reflexivity.
Defined.

(** ** More on the normaliser *)

Lemma amax_nonempty (xs : list Q) :
  xs <> [] -> exists m, Np.amax xs = Ok m.
Proof.
  destruct xs as [|x xs]; [congruence | intros _; eexists; reflexivity].
Qed.

(** X9.  The normaliser raises [ValueError] exactly when the tile set has
    no pixel at all (for instance when no tile was assembled); otherwise
    it returns an array with the same number of tiles, rows per tile and
    pixels per row. *)
Theorem normalize_raises_only_when_empty (tiles : list tile) :
  (concat (concat tiles) = [] -> normalize tiles = Raise ValueError) /\
  (concat (concat tiles) <> [] ->
   exists out, normalize tiles = Ok out /\
               map (map (@length Np.npfloat)) out = map (map (@length Q)) tiles).
Proof.
  unfold normalize, Np.min3, Np.max3. split.
  - intros H. rewrite H. reflexivity.
  - intros H.
    destruct (amin_nonempty _ H) as [m Hm]. destruct (amax_nonempty _ H) as [M HM].
    rewrite Hm, HM. cbn [bind]. eexists. split; [reflexivity |].
    rewrite map_map. apply map_ext. intros t.
    rewrite map_map. apply map_ext. intros rw. apply length_map.
Qed.

Lemma normalize_raises_only_when_empty_witness :
  normalize [[]; [[]]] = Raise ValueError.
Proof.
  apply (proj1 (normalize_raises_only_when_empty [[]; [[]]])). reflexivity.
Defined.

Lemma at3_map {A B : Type} (f : A -> B) (a : list (list (list A))) (i j k : nat) :
  at3 (map (map (map f)) a) i j k = option_map f (at3 a i j k).
Proof.
  unfold at3. rewrite nth_error_map.
  destruct (nth_error a i) as [t|]; [| reflexivity]. simpl.
  rewrite nth_error_map.
  destruct (nth_error t j) as [rw|]; [| reflexivity]. simpl.
  apply nth_error_map.
Qed.

Lemma In_at3 {A : Type} (a : list (list (list A))) (x : A) :
  In x (concat (concat a)) -> exists i j k, at3 a i j k = Some x.
Proof.
  intros H. apply in_concat in H. destruct H as [rw [Hrw Hx]].
  apply in_concat in Hrw. destruct Hrw as [t [Ht Hrw]].
  apply In_nth_error in Ht. destruct Ht as [i Hi].
  apply In_nth_error in Hrw. destruct Hrw as [j Hj].
  apply In_nth_error in Hx. destruct Hx as [k Hk].
  exists i, j, k. unfold at3. rewrite Hi, Hj. exact Hk.
Qed.

(** X10.  When the maximum [M] differs from the minimum [m], the
    normaliser returns an array in which some position that held [m] now
    holds 0 and some position that held [M] now holds 1, and which keeps
    the order of pixel values: of two positions, the one that held the
    smaller pixel holds the smaller finite output. *)
Theorem normalize_extremes_and_order (tiles : list tile) (m M : Q) :
  Np.min3 tiles = Ok m ->
  Np.max3 tiles = Ok M ->
  ~ (M == m)%Q ->
  exists out,
    normalize tiles = Ok out /\
    (exists i j k q, at3 tiles i j k = Some m /\
                     at3 out i j k = Some (Np.Fin q) /\ (q == 0)%Q) /\
    (exists i j k q, at3 tiles i j k = Some M /\
                     at3 out i j k = Some (Np.Fin q) /\ (q == 1)%Q) /\
    (forall i j k i' j' k' x x',
        at3 tiles i j k = Some x -> at3 tiles i' j' k' = Some x' ->
        (x <= x')%Q ->
        exists q q', at3 out i j k = Some (Np.Fin q) /\
                     at3 out i' j' k' = Some (Np.Fin q') /\ (q <= q')%Q).
Proof.
  intros Hm HM Hne.
  pose proof (min3_le_max3 _ _ _ Hm HM) as Hle.
  assert (Hpos : (0 < M - m)%Q).
  { destruct (Qlt_le_dec m M) as [Hlt | Hge].
    - lra.
    - exfalso. apply Hne. apply Qle_antisym; assumption. }
  assert (Hdiv : forall x, Np.div (x - m) (M - m) = Np.Fin ((x - m) / (M - m))).
  { intros x. unfold Np.div. destruct (Qeq_bool (M - m) 0) eqn:E; [| reflexivity].
    apply Qeq_bool_iff in E. lra. }
  exists (map (map (map (fun x => Np.div (x - m) (M - m)))) tiles).
  split; [unfold normalize; rewrite Hm, HM; reflexivity |].
  split; [| split].
  - destruct (In_at3 tiles m (amin_In _ _ Hm)) as [i [j [k Hat]]].
    exists i, j, k, ((m - m) / (M - m))%Q.
    rewrite at3_map, Hat. simpl. rewrite Hdiv.
    repeat split. field. lra.
  - destruct (In_at3 tiles M (amax_In _ _ HM)) as [i [j [k Hat]]].
    exists i, j, k, ((M - m) / (M - m))%Q.
    rewrite at3_map, Hat. simpl. rewrite Hdiv.
    repeat split. field. lra.
  - intros i j k i' j' k' x x' Hx Hx' Hxx.
    exists ((x - m) / (M - m))%Q, ((x' - m) / (M - m))%Q.
    rewrite !at3_map, Hx, Hx'. simpl. rewrite !Hdiv.
    repeat split. apply Qle_shift_div_l; [exact Hpos |].
    assert (E : ((x - m) / (M - m) * (M - m) == x - m)%Q) by (field; lra).
    rewrite E. lra.
Qed.

Lemma normalize_extremes_and_order_witness :
  exists out,
    normalize [[[0 # 1; 3 # 1]; [1 # 1; 4 # 1]]] = Ok out /\
    (exists i j k q, at3 [[[0 # 1; 3 # 1]; [1 # 1; 4 # 1]]] i j k = Some (4 # 1) /\
                     at3 out i j k = Some (Np.Fin q) /\ (q == 1)%Q).
Proof.
  destruct (normalize_extremes_and_order [[[0 # 1; 3 # 1]; [1 # 1; 4 # 1]]]
              (0 # 1) (4 # 1)) as [out [Hn [_ [H1 _]]]].
  - reflexivity.
  - reflexivity.
  - intros H. vm_compute in H. discriminate H.
  - exists out. split; [exact Hn | exact H1].
Defined.

(** ** Cleaning the label files *)

(** X11.  A row of a label file reaches the later cells exactly when its
    scene id is in the list [scenes] and its [is_vessel] cell is True or
    False: rows with NaN there are dropped, and the flag of a surviving row
    is the cell's own value.  The two filters of lines 80-85 can be applied
    in either order. *)
Theorem clean_labels_keeps_known_booleans (scenes : list string)
    (rows : list csv_row) :
  (forall l, In l (clean_labels scenes rows) <->
             exists c b, In c rows /\ In (csv_scene_id c) scenes /\
                         csv_is_vessel c = Some b /\
                         l = mk (csv_scene_id c) (csv_detect_scene_row c)
                               (csv_detect_scene_column c) b) /\
  drop_nan (isin scenes rows) = isin scenes (drop_nan rows).
Proof.
  split.
  - intros l. unfold clean_labels, drop_nan, isin. rewrite in_map_iff. split.
    + intros [c [Hl Hc]]. apply filter_In in Hc. destruct Hc as [Hc Hflag].
      apply filter_In in Hc. destruct Hc as [Hc Hs].
      apply existsb_exists in Hs. destruct Hs as [id [Hid Heq]].
      apply String.eqb_eq in Heq. subst id.
      destruct (csv_is_vessel c) as [b|] eqn:Ev; [| discriminate Hflag].
      exists c, b. repeat split; auto.
      subst l. unfold as_label, mk. rewrite Ev. reflexivity.
    + intros [c [b [Hc [Hs [Ev Hl]]]]]. exists c. split.
      * subst l. unfold as_label, mk. rewrite Ev. reflexivity.
      * apply filter_In. split.
        -- apply filter_In. split; [exact Hc |].
           apply existsb_exists. exists (csv_scene_id c).
           split; [exact Hs | apply String.eqb_refl].
        -- rewrite Ev. destruct b; reflexivity.
  - unfold drop_nan, isin. induction rows as [|c rows IH]; [reflexivity |].
    simpl.
    destruct (existsb (String.eqb (csv_scene_id c)) scenes) eqn:E1;
      destruct (flag_eq (csv_is_vessel c) true || flag_eq (csv_is_vessel c) false) eqn:E2;
      simpl; rewrite ?E1, ?E2, IH; reflexivity.
Qed.

(** ** The scene dictionary *)

Lemma unique_In (ids : list string) (id : string) :
  In id (unique ids) <-> In id ids.
Proof.
  induction ids as [|a ids IH]; simpl; [tauto |].
  rewrite filter_In, IH. split.
  - intros [H | [H _]]; auto.
  - intros [H | H]; [left; exact H |].
    destruct (String.eqb id a) eqn:E.
    + apply String.eqb_eq in E. left. congruence.
    + right. split; [exact H | reflexivity].
Qed.

Lemma NoDup_filter {A : Type} (p : A -> bool) (l : list A) :
  NoDup l -> NoDup (filter p l).
Proof.
  induction 1 as [|a l Hnin _ IH]; simpl; [constructor |].
  destruct (p a); [| exact IH].
  constructor; [| exact IH]. intros Hin. apply filter_In in Hin. tauto.
Qed.

Lemma unique_NoDup (ids : list string) : NoDup (unique ids).
Proof.
  induction ids as [|a ids IH]; simpl; constructor.
  - intros Hin. apply filter_In in Hin. destruct Hin as [_ Hne].
    rewrite String.eqb_refl in Hne. discriminate Hne.
  - apply NoDup_filter. exact IH.
Qed.

Lemma dict_set_new (d : list (string * scene)) (k : string) (v : scene) :
  ~ In k (map fst d) -> dict_set d k v = d ++ [(k, v)].
Proof.
  induction d as [|[k' v'] d IH]; simpl; intros Hnin; [reflexivity |].
  destruct (String.eqb k' k) eqn:E.
  - apply String.eqb_eq in E. tauto.
  - rewrite IH by tauto. reflexivity.
Qed.

Lemma skipn_nth_error {A : Type} (l : list A) (i : nat) (a : A) :
  nth_error l i = Some a -> skipn i l = a :: skipn (S i) l.
Proof.
  revert l; induction i as [|i IH]; intros [|b l] H; simpl in H; try discriminate.
  - inversion H; reflexivity.
  - apply IH in H. exact H.
Qed.

Lemma scenes_dict_from_ok (scenes_list : list scene) (ids : list string) :
  NoDup ids ->
  forall i d,
    (forall id, In id ids -> ~ In id (map fst d)) ->
    (i + length ids <= length scenes_list)%nat ->
    scenes_dict_from ids scenes_list i d = Ok (d ++ combine ids (skipn i scenes_list)).
Proof.
  induction 1 as [|id ids Hnin _ IH]; intros i d Hfresh Hlen; simpl.
  - rewrite app_nil_r. reflexivity.
  - simpl in Hlen.
    destruct (nth_error scenes_list i) as [s|] eqn:En.
    + rewrite (skipn_nth_error _ _ _ En).
      rewrite dict_set_new by (apply Hfresh; left; reflexivity).
      rewrite IH.
      * rewrite <- app_assoc. reflexivity.
      * intros id' Hid'. rewrite map_app, in_app_iff. simpl.
        intros [Hd | [Heq | []]].
        -- apply (Hfresh id'); [right; exact Hid' | exact Hd].
        -- subst id'. tauto.
      * lia.
    + apply nth_error_None in En. lia.
Qed.

Lemma scenes_dict_from_short (scenes_list : list scene) (ids : list string) :
  forall i d,
    (i <= length scenes_list)%nat ->
    (length scenes_list < i + length ids)%nat ->
    scenes_dict_from ids scenes_list i d = Raise IndexError.
Proof.
  induction ids as [|id ids IH]; intros i d Hi Hlen; simpl in *; [lia |].
  destruct (nth_error scenes_list i) as [s|] eqn:En; [| reflexivity].
  assert (i < length scenes_list)%nat by (apply nth_error_Some; congruence).
  apply IH; lia.
Qed.

(** X12.  The scene dictionary has one entry per distinct scene id of the
    dataframe and pairs the i-th distinct id, in order of first
    appearance, with the i-th raster of the list, whatever file that
    raster was read from; building it raises [IndexError] when the
    dataframe names more distinct scenes than there are rasters. *)
Theorem scenes_dict_pairs_by_position (df : dataframe) (scenes_list : list scene) :
  let ids := unique (map scene_id df) in
  NoDup ids /\
  (forall id, In id ids <-> exists l, In l df /\ scene_id l = id) /\
  ((length ids <= length scenes_list)%nat ->
   scenes_dict df scenes_list = Ok (combine ids scenes_list)) /\
  ((length scenes_list < length ids)%nat ->
   scenes_dict df scenes_list = Raise IndexError).
Proof.
  intros ids. split; [apply unique_NoDup |]. split; [| split].
  - intros id. unfold ids. rewrite unique_In, in_map_iff.
    split; intros [l [H1 H2]]; exists l; auto.
  - intros Hlen. unfold scenes_dict. fold ids.
    rewrite scenes_dict_from_ok; [reflexivity | apply unique_NoDup | auto | exact Hlen].
  - intros Hlen. unfold scenes_dict. fold ids.
    apply scenes_dict_from_short; [lia | exact Hlen].
Qed.

Lemma scenes_dict_pairs_by_position_witness :
  scenes_dict [mk "b" 1 1 true; mk "a" 2 2 false; mk "b" 3 3 false]
              [[[1 # 1]]; [[2 # 1]]; [[3 # 1]]]
  = Ok [("b"%string, [[1 # 1]]); ("a"%string, [[2 # 1]])].
Proof.
  apply (proj1 (proj2 (proj2 (scenes_dict_pairs_by_position
           [mk "b" 1 1 true; mk "a" 2 2 false; mk "b" 3 3 false]
           [[[1 # 1]]; [[2 # 1]]; [[3 # 1]]])))).
  simpl. lia.
Defined.








(** ** Indexing the assembled arrays *)

Lemma getitem_inside {A : Type} (a : list A) (i : Z) :
  0 <= i < Z.of_nat (length a) ->
  exists v, getitem a i = Ok v /\ nth_error a (Z.to_nat i) = Some v.
Proof.
  intros Hi. unfold getitem.
  destruct (Z.ltb_spec i 0); [lia |].
  destruct (Z.ltb_spec i 0); [lia |].
  destruct (Z.leb_spec (Z.of_nat (length a)) i); [lia |]. simpl.
  destruct (nth_error a (Z.to_nat i)) as [v|] eqn:E; [exists v; auto |].
  apply nth_error_None in E. lia.
Qed.

Lemma getitem_beyond {A : Type} (a : list A) (i : Z) :
  Z.of_nat (length a) <= i -> getitem a i = Raise IndexError.
Proof.
  intros Hi. unfold getitem.
  destruct (Z.ltb_spec i 0); [lia |].
  destruct (Z.ltb_spec i 0); [lia |].
  destruct (Z.leb_spec (Z.of_nat (length a)) i); [| lia].
  reflexivity.
Qed.

Lemma for_each_all {A B : Type} (f : A -> outcome B) (P : A -> B -> Prop) (l : list A) :
  (forall a, In a l -> exists b, f a = Ok b /\ P a b) ->
  exists bs, for_each f l = Ok bs /\ Forall2 P l bs.
Proof.
  induction l as [|a l IH]; intros H; simpl.
  - exists []. auto.
  - destruct (H a (or_introl eq_refl)) as [b [Hb HP]].
    destruct IH as [bs [Hbs HF]]; [intros a' Ha'; apply H; right; exact Ha' |].
    exists (b :: bs). rewrite Hb, Hbs. simpl. auto.
Qed.

Lemma for_each_raises {A B : Type} (f : A -> outcome B) (e : exn) (l : list A) :
  (forall a, In a l -> f a = Raise e \/ exists b, f a = Ok b) ->
  (exists a, In a l /\ f a = Raise e) ->
  for_each f l = Raise e.
Proof.
  induction l as [|a l IH]; intros Hall [a0 [Hin Hr]]; [destruct Hin |].
  simpl. destruct (Hall a (or_introl eq_refl)) as [Ha | [b Hb]].
  - rewrite Ha. reflexivity.
  - rewrite Hb. simpl.
    rewrite IH; [reflexivity | intros a' Ha'; apply Hall; right; exact Ha' |].
    destruct Hin as [<- | Hin]; [congruence |]. exists a0. auto.
Qed.

(** X14.  The cell that displays the tiles [train_X[0]], [train_X[20]],
    ..., [train_X[480]] with their labels returns the 25 pairs at those
    positions when the training set has more than 480 entries, and raises
    [IndexError] when it has 480 or fewer. *)
Theorem preview_needs_481_tiles {A : Type} (train_X : list A) (train_y : list Z) :
  length train_X = length train_y ->
  ((480 < length train_X)%nat ->
   exists shown,
     preview train_X train_y = Ok shown /\
     Forall2 (fun i p => nth_error train_X (20 * i) = Some (fst p) /\
                         nth_error train_y (20 * i) = Some (snd p))
             (seq 0 25) shown) /\
  ((length train_X <= 480)%nat -> preview train_X train_y = Raise IndexError).
Proof.
  intros Hlen. split.
  - intros Hbig. unfold preview. apply for_each_all.
    intros i Hi. apply in_seq in Hi.
    destruct (getitem_inside train_X (Z.of_nat i * 20) ltac:(lia)) as [t [Ht Hnt]].
    destruct (getitem_inside train_y (Z.of_nat i * 20) ltac:(lia)) as [l [Hl Hnl]].
    exists (t, l). rewrite Ht, Hl. simpl.
    replace (Z.to_nat (Z.of_nat i * 20)) with (20 * i)%nat in * by lia. auto.
  - intros Hsmall. unfold preview. apply for_each_raises.
    + intros i Hi. apply in_seq in Hi.
      destruct (Z_lt_le_dec (Z.of_nat i * 20) (Z.of_nat (length train_X))) as [Hin | Hout].
      * right.
        destruct (getitem_inside train_X (Z.of_nat i * 20) ltac:(lia)) as [t [Ht _]].
        destruct (getitem_inside train_y (Z.of_nat i * 20) ltac:(lia)) as [l [Hl _]].
        exists (t, l). rewrite Ht, Hl. reflexivity.
      * left. rewrite getitem_beyond by exact Hout. reflexivity.
    + exists 24%nat. split; [apply in_seq; lia |].
      rewrite getitem_beyond by lia. reflexivity.
Qed.

Lemma preview_needs_481_tiles_witness :
  preview (repeat tt 480) (repeat 1 480) = Raise IndexError.
Proof.
  apply (proj2 (preview_needs_481_tiles (repeat tt 480) (repeat 1 480)
                  ltac:(rewrite !repeat_length; reflexivity))).
  rewrite repeat_length. lia.
Defined.

(** X15.  The cell that shows a random validation tile raises
    [ValueError] on an empty validation set; otherwise the index it draws
    is a position of the set, indexing raises nothing, and the tile shown
    is paired with the label at the same position. *)
Theorem pick_stays_in_range {A : Type} (draws : nat -> Z) (val_X : list A)
    (val_y : list Z) (p : nat) :
  length val_X = length val_y ->
  (val_X = [] -> pick draws val_X val_y p = Raise ValueError) /\
  (val_X <> [] ->
   exists index t l,
     pick draws val_X val_y p = Ok (index, t, l, S p) /\
     0 <= index < Z.of_nat (length val_X) /\
     nth_error val_X (Z.to_nat index) = Some t /\
     nth_error val_y (Z.to_nat index) = Some l).
Proof.
  intros Hlen. split.
  - intros ->. reflexivity.
  - intros Hne. unfold pick.
    assert (Hpos : 0 < Z.of_nat (length val_X)).
    { destruct val_X; [congruence | simpl length; lia]. }
    destruct (randint draws 0 (Z.of_nat (length val_X)) p) as [[index p'] | e |] eqn:E.
    + pose proof (randint_range _ _ _ _ _ _ E) as Hr.
      assert (Hp : p' = S p).
      { unfold randint in E. destruct (0 <? Z.of_nat (length val_X));
          [inversion E; reflexivity | discriminate E]. }
      subst p'. cbn [bind].
      destruct (getitem_inside val_X index Hr) as [t [Ht Hnt]].
      destruct (getitem_inside val_y index ltac:(lia)) as [l [Hl Hnl]].
      exists index, t, l. rewrite Ht. cbn [bind]. rewrite Hl. cbn [bind]. auto.
    + unfold randint in E. destruct (Z.ltb_spec 0 (Z.of_nat (length val_X)));
        [discriminate E | lia].
    + unfold randint in E. destruct (0 <? Z.of_nat (length val_X)); discriminate E.
Qed.

Lemma pick_stays_in_range_witness :
  exists index t l,
    pick (fun _ => 7) [10%nat; 20%nat; 30%nat] [0; 1; 1] 0 = Ok (index, t, l, 1%nat) /\
    0 <= index < Z.of_nat (length [10%nat; 20%nat; 30%nat]) /\
    nth_error [10%nat; 20%nat; 30%nat] (Z.to_nat index) = Some t /\
    nth_error [0; 1; 1] (Z.to_nat index) = Some l.
Proof.
  apply (proj2 (pick_stays_in_range (fun _ => 7) [10%nat; 20%nat; 30%nat] [0; 1; 1] 0
                  eq_refl)).
  discriminate.
Defined.

(** ** The tiles an extraction loop appends, in order *)

Lemma extract_label_appends (s : scene) (lab : label) (g g' : globals) :
  extract_label s lab g = Ok g' ->
  X g' = X g ++ map (fun p => window (fst p) (detect_scene_row (snd p))
                                 (detect_scene_column (snd p)))
                    (filter (fun p => has_data (fst p) (snd p)) [(s, lab)]) /\
  y g' = y g ++ map (fun p => if is_vessel (snd p) then 1 else 0)
                    (filter (fun p => has_data (fst p) (snd p)) [(s, lab)]).
Proof.
  unfold extract_label. intros H. simpl. unfold has_data.
  destruct (Np.min2 (window s (detect_scene_row lab) (detect_scene_column lab)))
    as [m| |]; simpl in H; try discriminate H.
  destruct (Qeq_bool m no_data); simpl in *; inversion H; subst; simpl;
    rewrite ?app_nil_r; auto.
Qed.

Lemma extract_rows_appends (s : scene) (rows : list label) :
  forall g g',
    extract_rows s rows g = Ok g' ->
    X g' = X g ++ map (fun p => window (fst p) (detect_scene_row (snd p))
                                   (detect_scene_column (snd p)))
                      (filter (fun p => has_data (fst p) (snd p)) (map (pair s) rows)) /\
    y g' = y g ++ map (fun p => if is_vessel (snd p) then 1 else 0)
                      (filter (fun p => has_data (fst p) (snd p)) (map (pair s) rows)).
Proof.
  induction rows as [|lab rows IH]; intros g g' H.
  - simpl in *. inversion H; subst. rewrite !app_nil_r. auto.
  - simpl in H. inv_bind H. apply extract_label_appends in E. apply IH in H.
    destruct E as [EX Ey], H as [HX Hy].
    change (map (pair s) (lab :: rows)) with ([(s, lab)] ++ map (pair s) rows).
    rewrite filter_app, !map_app, HX, Hy, EX, Ey, <- !app_assoc. auto.
Qed.

(** X16.  When an extraction loop returns, what it appended is determined
    row by row: the windows of exactly those iterated rows whose window
    has a minimum other than the no-data value, in the order of the
    iteration, each with label 1 for a vessel and 0 otherwise. *)
Theorem extract_appends_rows_with_data (scenes : list (string * scene))
    (df : dataframe) :
  forall g g',
    extract scenes df g = Ok g' ->
    X g' = X g ++ map (fun p => window (fst p) (detect_scene_row (snd p))
                                   (detect_scene_column (snd p)))
                      (kept scenes df) /\
    y g' = y g ++ map (fun p => if is_vessel (snd p) then 1 else 0)
                      (kept scenes df).
Proof.
  unfold kept. induction scenes as [|[id s] scenes IH]; intros g g' H.
  - simpl in *. inversion H; subst. rewrite !app_nil_r. auto.
  - simpl in H. inv_bind H. apply extract_rows_appends in E. apply IH in H.
    destruct E as [EX Ey], H as [HX Hy].
    cbn [flat_map fst snd].
    rewrite filter_app, !map_app, HX, Hy, EX, Ey, <- !app_assoc. auto.
Qed.

Lemma extract_appends_rows_with_data_witness :
  returns (extract demo_scenes demo_df init)
    (fun g => y g = [] ++ map (fun p => if is_vessel (snd p) then 1 else 0)
                            (kept demo_scenes demo_df)).
Proof.
  apply returns_intro; [vm_compute; reflexivity |].
  intros g E. exact (proj2 (extract_appends_rows_with_data _ _ _ _ E)).
Defined.
